(** * configure.py: the configuration resolution engine

    A shallow embedding of [scripts/configure.py].  Python values of the
    configuration document are the type [json]; a Python [dict] is an
    association list in insertion order with unique keys (what
    [json.load] and the engine itself produce), looked up by first match.
    In-place mutation of the one shared document is explicit state
    passing: every statement maps the document to the next document.
    An uncaught Python exception is [Raise]; nothing in [main] catches
    one after the two loading steps, so it ends the run.

    Strings are byte strings (UTF-8).  [lower], [strip] and [int_of_str]
    model Python's [str.lower], [str.strip] and [int] on ASCII text; the
    interpreter's limit on the number of digits of an integer literal is
    not modelled. *)

From Stdlib Require Import List String Ascii ZArith NArith Bool Lia.
From Stdlib Require Import Permutation Sorting.Sorted Morphisms.
From Stdlib Require Import Floats.PrimFloat.
Import ListNotations.
Open Scope string_scope.
Open Scope Z_scope.
Set Warnings "-register-all".

(* ------------------------------------------------------------------ *)
(** ** Python strings *)

Definition chr (n : N) : ascii := ascii_of_N n.
Definition ord (c : ascii) : N := N_of_ascii c.

Definition lower_char (c : ascii) : ascii :=
  if ((65 <=? ord c) && (ord c <=? 90))%N then chr (ord c + 32) else c.

Fixpoint lower (s : string) : string :=
  match s with
  | EmptyString => EmptyString
  | String c rest => String (lower_char c) (lower rest)
  end.

(** [str.isspace] on ASCII: tab, newline, VT, FF, CR, FS..US and space. *)
Definition is_space (c : ascii) : bool :=
  (((9 <=? ord c) && (ord c <=? 13)) || ((28 <=? ord c) && (ord c <=? 32)))%N.

Fixpoint lstrip_by (p : ascii -> bool) (s : string) : string :=
  match s with
  | EmptyString => EmptyString
  | String c rest => if p c then lstrip_by p rest else s
  end.

Fixpoint rstrip_by (p : ascii -> bool) (s : string) : string :=
  match s with
  | EmptyString => EmptyString
  | String c rest =>
      match rstrip_by p rest with
      | EmptyString => if p c then EmptyString else String c EmptyString
      | r => String c r
      end
  end.

(** [s.strip()] *)
Definition strip (s : string) : string := rstrip_by is_space (lstrip_by is_space s).

(** [s.rstrip("/")] *)
Definition rstrip_slash (s : string) : string := rstrip_by (Ascii.eqb "/") s.

(** [s.split(sep)] for a one-character separator: never the empty list. *)
Fixpoint split (sep : ascii) (s : string) : list string :=
  match s with
  | EmptyString => [EmptyString]
  | String c rest =>
      if Ascii.eqb c sep then EmptyString :: split sep rest
      else match split sep rest with
           | [] => [String c EmptyString]
           | w :: ws => String c w :: ws
           end
  end.

(** [s.replace("__", ".")]: left to right, matches do not overlap. *)
Fixpoint replace_dunder (s : string) : string :=
  match s with
  | EmptyString => EmptyString
  | String c rest =>
      match rest with
      | String c' rest' =>
          if Ascii.eqb c "_" && Ascii.eqb c' "_"
          then String "." (replace_dunder rest')
          else String c (replace_dunder rest)
      | EmptyString => String c EmptyString
      end
  end.

(** [s.startswith(p)] *)
Definition startswith (s p : string) : bool := String.prefix p s.

(** [s[n:]] *)
Fixpoint drop (n : nat) (s : string) : string :=
  match n, s with
  | O, _ => s
  | S n', String _ rest => drop n' rest
  | S _, EmptyString => EmptyString
  end.

(** [s.endswith(suf)] *)
Definition endswith (s suf : string) : bool :=
  let ls := String.length s in
  let lf := String.length suf in
  if Nat.ltb ls lf then false else String.eqb (drop (ls - lf) s) suf.

(** [needle in haystack] on strings *)
Fixpoint contains (haystack needle : string) : bool :=
  String.prefix needle haystack ||
  match haystack with
  | EmptyString => false
  | String _ rest => contains rest needle
  end.

(** *** [int(raw)]: optional blanks, optional sign, digits with single
    underscores between them; [None] is [ValueError]. *)

Definition is_digit (c : ascii) : bool := ((48 <=? ord c) && (ord c <=? 57))%N.
Definition digit_val (c : ascii) : Z := Z.of_N (ord c) - 48.

Fixpoint int_digits (s : string) (acc : Z) : option Z :=
  match s with
  | EmptyString => Some acc
  | String c rest =>
      if is_digit c then int_digits rest (10 * acc + digit_val c)
      else if Ascii.eqb c "_" then
        match rest with
        | String d rest' =>
            if is_digit d then int_digits rest' (10 * acc + digit_val d) else None
        | EmptyString => None
        end
      else None
  end.

Definition int_unsigned (s : string) : option Z :=
  match s with
  | String c rest => if is_digit c then int_digits rest (digit_val c) else None
  | EmptyString => None
  end.

Definition int_of_str (raw : string) : option Z :=
  match strip raw with
  | String "-" body => option_map Z.opp (int_unsigned body)
  | String "+" body => int_unsigned body
  | s => int_unsigned s
  end.

(* ------------------------------------------------------------------ *)
(** ** Documents *)

Inductive json : Type :=
| JNull
| JBool (b : bool)
| JInt (n : Z)
| JFloat (x : float)
| JStr (s : string)
| JList (l : list json)
| JDict (d : list (string * json)).

(** A Python dict with string keys. *)
Definition dict (V : Type) : Type := list (string * V).

(** [d.get(k)] on the entries: first match. *)
Fixpoint dict_get {V} (d : dict V) (k : string) : option V :=
  match d with
  | [] => None
  | (k', v) :: rest => if String.eqb k' k then Some v else dict_get rest k
  end.

(** [d[k] = v]: an existing key keeps its position, a new one goes last. *)
Fixpoint dict_set {V} (d : dict V) (k : string) (v : V) : dict V :=
  match d with
  | [] => [(k, v)]
  | (k', v') :: rest =>
      if String.eqb k' k then (k, v) :: rest else (k', v') :: dict_set rest k v
  end.

(** [del d[k]] (for a key that is present) and [d.pop(k, None)]. *)
Fixpoint dict_del {V} (d : dict V) (k : string) : dict V :=
  match d with
  | [] => []
  | (k', v') :: rest =>
      if String.eqb k' k then dict_del rest k else (k', v') :: dict_del rest k
  end.

(** [k in d] *)
Definition dict_mem {V} (d : dict V) (k : string) : bool :=
  match dict_get d k with Some _ => true | None => false end.

Definition keys {V} (d : dict V) : list string := map fst d.

(** [bool(v)] *)
Definition truthy (v : json) : bool :=
  match v with
  | JNull => false
  | JBool b => b
  | JInt n => negb (n =? 0)
  | JFloat x => negb (PrimFloat.eqb x 0%float)
  | JStr s => negb (String.eqb s "")
  | JList l => match l with [] => false | _ => true end
  | JDict d => match d with [] => false | _ => true end
  end.

Definition isinstance_dict (v : json) : bool :=
  match v with JDict _ => true | _ => false end.

(** [a is b] when [b] is the [default] of [get_nested].  [None], [True]
    and [False] are singletons; any other object met in the document is
    a different object from the default (every call of the source passes
    [None] or a string literal).  For a default that is not a container
    the answer does not change what [get_nested] returns. *)
Definition json_is (a b : json) : bool :=
  match a, b with
  | JNull, JNull => true
  | JBool x, JBool y => Bool.eqb x y
  | _, _ => false
  end.

(* ------------------------------------------------------------------ *)
(** ** Exceptions *)

Inductive exn : Type :=
| AttributeError
| TypeError
| KeyError (k : string)
| IndexError
| ValueError
| SystemExit (code : Z) (stderr : list string).

Inductive result (A : Type) : Type :=
| Ok (a : A)
| Raise (e : exn).
Arguments Ok {A} a.
Arguments Raise {A} e.

Definition bind {A B} (m : result A) (f : A -> result B) : result B :=
  match m with
  | Ok a => f a
  | Raise e => Raise e
  end.

Notation "x <- m ;; k" := (bind m (fun x => k))
  (at level 61, m at next level, right associativity).
Notation "' p <- m ;; k" := (bind m (fun x => match x with p => k end))
  (at level 61, p pattern, m at next level, right associativity).

(** [obj[k]] *)
Definition getitem (obj : json) (k : string) : result json :=
  match obj with
  | JDict d => match dict_get d k with
               | Some v => Ok v
               | None => Raise (KeyError k)
               end
  | _ => Raise TypeError
  end.

(** [obj[k] = v] *)
Definition setitem (obj : json) (k : string) (v : json) : result json :=
  match obj with
  | JDict d => Ok (JDict (dict_set d k v))
  | _ => Raise TypeError
  end.

(** [obj.get(k, default)] *)
Definition py_get (obj : json) (k : string) (default : json) : result json :=
  match obj with
  | JDict d => match dict_get d k with
               | Some v => Ok v
               | None => Ok default
               end
  | _ => Raise AttributeError
  end.

(** [obj[k1][k2]...] *)
Fixpoint subscript (obj : json) (path : list string) : result json :=
  match path with
  | [] => Ok obj
  | k :: rest => child <- getitem obj k ;; subscript child rest
  end.

(** The object [obj[k1][k2]...] is mutated in place by [f]: the document
    afterwards. *)
Fixpoint update_at (obj : json) (path : list string)
         (f : json -> result json) : result json :=
  match path with
  | [] => f obj
  | k :: rest =>
      child <- getitem obj k ;;
      child' <- update_at child rest f ;;
      setitem obj k child'
  end.

(* ------------------------------------------------------------------ *)
(** ** The process environment *)

(** [os.environ]: variable names are unique; the order of the list is
    the order in which the operating system enumerates the block. *)
Definition environ : Type := dict string.

(** [os.environ.get(k)] *)
Definition environ_get (env : environ) (k : string) : option string := dict_get env k.

(** [os.environ.get(k, default)] *)
Definition getenv (env : environ) (k default : string) : string :=
  match environ_get env k with Some v => v | None => default end.

(** [bool(os.environ.get(k))]: set, and not to the empty string. *)
Definition env_true (env : environ) (k : string) : bool :=
  negb (String.eqb (getenv env k "") "").

(** [os.environ[k]] *)
Definition environ_item (env : environ) (k : string) : result string :=
  match environ_get env k with Some v => Ok v | None => Raise (KeyError k) end.

(** Order of [(name, value)] tuples: by name, then by value. *)
Definition item_leb (a b : string * string) : bool :=
  match String.compare (fst a) (fst b) with
  | Lt => true
  | Gt => false
  | Eq => String.leb (snd a) (snd b)
  end.

Fixpoint insert_sorted (x : string * string) (l : list (string * string)) :=
  match l with
  | [] => [x]
  | y :: rest => if item_leb x y then x :: l else y :: insert_sorted x rest
  end.

(** [sorted(items)] *)
Fixpoint sorted (items : list (string * string)) : list (string * string) :=
  match items with
  | [] => []
  | x :: rest => insert_sorted x (sorted rest)
  end.

(* ------------------------------------------------------------------ *)
(** ** Generic engine *)

(** [deep_merge(target, source)]; the value is the mutated [target]. *)
Fixpoint deep_merge (target source : json) {struct source} : result json :=
  match source with
  | JDict items =>
      (fix loop (items : list (string * json)) (target : json) {struct items}
         : result json :=
         match items with
         | [] => Ok target
         | (key, val) :: rest =>
             target' <-
               match val with
               | JDict _ =>
                   tv <- py_get target key JNull ;;
                   match tv with
                   | JDict _ => merged <- deep_merge tv val ;; setitem target key merged
                   | _ => setitem target key val
                   end
               | _ => setitem target key val
               end ;;
             loop rest target'
         end) items target
  | _ => Raise AttributeError
  end.

(** [obj.setdefault(k, {})]: the object returned. *)
Definition setdefault (obj : json) (k : string) : result json :=
  py_get obj k (JDict []).

(** The loop and the final assignment of [set_nested], over
    [keys = k :: rest]. *)
Fixpoint set_keys (obj : json) (k : string) (rest : list string) (value : json)
  : result json :=
  match rest with
  | [] => setitem obj k value
  | k' :: rest' =>
      child <- setdefault obj k ;;
      child' <- set_keys child k' rest' value ;;
      setitem obj k child'
  end.

(** [set_nested(obj, dotpath, value)] *)
Definition set_nested (obj : json) (dotpath : string) (value : json) : result json :=
  match split "." dotpath with
  | [] => Raise IndexError
  | k :: rest => set_keys obj k rest value
  end.

Fixpoint get_keys (obj : json) (path : list string) (default : json) : json :=
  match path with
  | [] => obj
  | k :: rest =>
      match obj with
      | JDict d =>
          match dict_get d k with
          | None => default
          | Some v => if json_is v default then default else get_keys v rest default
          end
      | _ => default
      end
  end.

(** [get_nested(obj, dotpath, default)] *)
Definition get_nested (obj : json) (dotpath : string) (default : json) : json :=
  get_keys obj (split "." dotpath) default.

Definition nonempty (s : string) : bool := negb (String.eqb s "").

(** [parse_value(raw, type_hint)] *)
Definition parse_value (raw type_hint : string) : result json :=
  if String.eqb type_hint "str" then Ok (JStr raw)
  else if String.eqb type_hint "int" then
    match int_of_str raw with
    | Some n => Ok (JInt n)
    | None => Raise ValueError
    end
  else if String.eqb type_hint "bool_true" then
    Ok (JBool (negb (String.eqb (lower raw) "false")))
  else if String.eqb type_hint "bool_false" then
    Ok (JBool (String.eqb (lower raw) "true"))
  else if String.eqb type_hint "csv" then
    Ok (JList (map JStr (filter nonempty (map strip (split "," raw)))))
  else if String.eqb type_hint "csv_smart" then
    Ok (JList (map (fun s => match int_of_str s with
                             | Some n => JInt n
                             | None => JStr s
                             end)
                   (filter nonempty (map strip (split "," raw)))))
  else Ok (JStr raw).

(** A field mapping: (env_var, json_path, type). *)
Definition field : Type := (string * string * string)%type.

(** [apply_fields(obj, fields)]; the value is the mutated [obj]. *)
Fixpoint apply_fields (env : environ) (obj : json) (fields : list field)
  : result json :=
  match fields with
  | [] => Ok obj
  | (env_var, json_path, type_hint) :: rest =>
      obj' <-
        match environ_get env env_var with
        | Some val =>
            v <- parse_value val type_hint ;;
            set_nested obj json_path v
        | None => Ok obj
        end ;;
      apply_fields env obj' rest
  end.

(** [ensure(obj, *keys)]; the value is the mutated [obj]. *)
Fixpoint ensure (obj : json) (path : list string) : result json :=
  match path with
  | [] => Ok obj
  | k :: rest =>
      match obj with
      | JDict d =>
          let cur := match dict_get d k with
                     | Some (JDict c) => JDict c
                     | _ => JDict []
                     end in
          cur' <- ensure cur rest ;;
          Ok (JDict (dict_set d k cur'))
      | _ => Raise TypeError
      end
  end.

(** [del providers[name]] *)
Definition delitem (obj : json) (k : string) : result json :=
  match obj with
  | JDict d => if dict_mem d k then Ok (JDict (dict_del d k)) else Raise (KeyError k)
  | _ => Raise TypeError
  end.

(** The four lines shared by [remove_provider] and the clean-up loops of
    [main]: [providers] is the object at [config["models"]["providers"]]. *)
Definition del_provider (config : json) (name : string) : result json :=
  match get_nested config "models.providers" JNull with
  | JDict providers =>
      if dict_mem providers name
      then update_at config ["models"; "providers"] (fun p => delitem p name)
      else Ok config
  | _ => Ok config
  end.

(** [remove_provider(config, has_custom_config, name, label, env_hint)];
    [label] and [env_hint] only feed the log line. *)
Definition remove_provider (config : json) (has_custom_config : bool)
           (name : string) : result json :=
  if negb has_custom_config then del_provider config name else Ok config.

Section Engine.

(** Library functions the engine calls: [float(raw)] ([None] is
    [ValueError]), [json.loads(raw)] ([None] is [JSONDecodeError]) and
    [str(v)] of a document value that is not a string. *)
Variable py_float : string -> option float.
Variable json_loads : string -> option json.
Variable py_repr : json -> string.

(** [_auto_type(raw)] *)
Definition _auto_type (raw : string) : json :=
  if String.eqb (lower raw) "true" || String.eqb (lower raw) "false"
  then JBool (String.eqb (lower raw) "true")
  else match int_of_str raw with
  | Some n => JInt n
  | None =>
  match py_float raw with
  | Some x => JFloat x
  | None =>
      if startswith raw "[" || startswith raw "{"
      then match json_loads raw with
           | Some v => v
           | None => JStr raw
           end
      else JStr raw
  end end.

Definition prefix : string := "OPENCLAW_JSON__".

Fixpoint convention_loop (config : json) (items : list (string * string))
  : result json :=
  match items with
  | [] => Ok config
  | (key, raw) :: rest =>
      if negb (startswith key prefix) then convention_loop config rest
      else
        let path := replace_dunder (drop (String.length prefix) key) in
        let value := _auto_type raw in
        config' <- set_nested config path value ;;
        convention_loop config' rest
  end.

(** [apply_convention_overrides(config)] *)
Definition apply_convention_overrides (env : environ) (config : json) : result json :=
  convention_loop config (sorted env).

(* ------------------------------------------------------------------ *)
(** ** Schema *)

Definition BUILTIN_PROVIDERS : list (string * string * string) :=
  [ ("ANTHROPIC_API_KEY",    "Anthropic",         "anthropic");
    ("OPENAI_API_KEY",       "OpenAI",            "openai");
    ("OPENROUTER_API_KEY",   "OpenRouter",        "openrouter");
    ("GEMINI_API_KEY",       "Google Gemini",     "google");
    ("XAI_API_KEY",          "xAI",               "xai");
    ("GROQ_API_KEY",         "Groq",              "groq");
    ("MISTRAL_API_KEY",      "Mistral",           "mistral");
    ("CEREBRAS_API_KEY",     "Cerebras",          "cerebras");
    ("ZAI_API_KEY",          "ZAI",               "zai");
    ("AI_GATEWAY_API_KEY",   "Vercel AI Gateway", "vercel-ai-gateway");
    ("COPILOT_GITHUB_TOKEN", "GitHub Copilot",    "github-copilot") ].

(** How a custom provider names its base URL: the key [baseUrl], or the
    keys [baseUrlEnv] and [baseUrlDefault]. *)
Inductive base_url : Type :=
| BaseUrl (url : string)
| BaseUrlEnv (var default : string).

Record provider : Type := Provider {
  p_key : string;
  p_env : string;
  p_api : string;
  p_base : base_url;
  p_models : json
}.

Definition model_entry (id name : string) (contextWindow : Z) : json :=
  JDict [("id", JStr id); ("name", JStr name); ("contextWindow", JInt contextWindow)].

Definition CUSTOM_PROVIDERS : list provider :=
  [ Provider "venice" "VENICE_API_KEY" "openai-completions"
      (BaseUrl "https://api.venice.ai/api/v1")
      (JList [model_entry "llama-3.3-70b" "Llama 3.3 70B" 128000]);
    Provider "minimax" "MINIMAX_API_KEY" "anthropic-messages"
      (BaseUrl "https://api.minimax.io/anthropic")
      (JList [model_entry "MiniMax-M2.1" "MiniMax M2.1" 200000]);
    Provider "moonshot" "MOONSHOT_API_KEY" "openai-completions"
      (BaseUrlEnv "MOONSHOT_BASE_URL" "https://api.moonshot.ai/v1")
      (JList [model_entry "kimi-k2.5" "Kimi K2.5" 128000]);
    Provider "kimi-coding" "KIMI_API_KEY" "anthropic-messages"
      (BaseUrlEnv "KIMI_BASE_URL" "https://api.moonshot.ai/anthropic")
      (JList [model_entry "k2p5" "Kimi K2P5" 128000]);
    Provider "synthetic" "SYNTHETIC_API_KEY" "anthropic-messages"
      (BaseUrl "https://api.synthetic.new/anthropic")
      (JList [model_entry "hf:MiniMaxAI/MiniMax-M2.1" "MiniMax M2.1" 192000]);
    Provider "xiaomi" "XIAOMI_API_KEY" "anthropic-messages"
      (BaseUrl "https://api.xiaomimimo.com/anthropic")
      (JList [model_entry "mimo-v2-flash" "MiMo v2 Flash" 262144]) ].

Definition PRIMARY_MODEL_PRIORITY : list (string * string) :=
  [ ("ANTHROPIC_API_KEY",      "anthropic/claude-opus-4-5-20251101");
    ("OPENAI_API_KEY",         "openai/gpt-5.2");
    ("OPENROUTER_API_KEY",     "openrouter/anthropic/claude-opus-4-5");
    ("GEMINI_API_KEY",         "google/gemini-2.5-pro");
    ("_OPENCODE_KEY",          "opencode/claude-opus-4-5");
    ("COPILOT_GITHUB_TOKEN",   "github-copilot/claude-opus-4-5");
    ("XAI_API_KEY",            "xai/grok-3");
    ("GROQ_API_KEY",           "groq/llama-3.3-70b-versatile");
    ("MISTRAL_API_KEY",        "mistral/mistral-large-latest");
    ("CEREBRAS_API_KEY",       "cerebras/llama-3.3-70b");
    ("VENICE_API_KEY",         "venice/llama-3.3-70b");
    ("MOONSHOT_API_KEY",       "moonshot/kimi-k2.5");
    ("KIMI_API_KEY",           "kimi-coding/k2p5");
    ("MINIMAX_API_KEY",        "minimax/MiniMax-M2.1");
    ("SYNTHETIC_API_KEY",      "synthetic/hf:MiniMaxAI/MiniMax-M2.1");
    ("ZAI_API_KEY",            "zai/glm-4.7");
    ("AI_GATEWAY_API_KEY",     "vercel-ai-gateway/anthropic/claude-opus-4.5");
    ("XIAOMI_API_KEY",         "xiaomi/mimo-v2-flash");
    ("AWS_ACCESS_KEY_ID",      "amazon-bedrock/anthropic.claude-opus-4-5-20251101-v1:0");
    ("_OLLAMA_URL",            "ollama/llama3.3") ].

(** The value under ["gate"]: one variable name or a list of them. *)
Inductive gate_spec : Type :=
| Gate (var : string)
| GateAll (vars : list string).

(** The value under ["tokenField"]: one field name or a list of them. *)
Inductive token_spec : Type :=
| TokenField (name : string)
| TokenFields (names : list string).

Record channel : Type := Channel {
  ch_key : string;
  ch_gate : gate_spec;
  ch_gateCheck : option string;
  ch_merge : bool;
  ch_tokenField : option token_spec;
  ch_fields : list field
}.

Definition telegram : channel :=
  Channel "telegram" (Gate "TELEGRAM_BOT_TOKEN") None true (Some (TokenField "botToken"))
  [ ("TELEGRAM_DM_POLICY",              "dmPolicy",                    "str");
    ("TELEGRAM_GROUP_POLICY",           "groupPolicy",                 "str");
    ("TELEGRAM_REPLY_TO_MODE",          "replyToMode",                 "str");
    ("TELEGRAM_CHUNK_MODE",             "chunkMode",                   "str");
    ("TELEGRAM_STREAM_MODE",            "streamMode",                  "str");
    ("TELEGRAM_REACTION_NOTIFICATIONS", "reactionNotifications",       "str");
    ("TELEGRAM_REACTION_LEVEL",         "reactionLevel",               "str");
    ("TELEGRAM_PROXY",                  "proxy",                       "str");
    ("TELEGRAM_WEBHOOK_URL",            "webhookUrl",                  "str");
    ("TELEGRAM_WEBHOOK_SECRET",         "webhookSecret",               "str");
    ("TELEGRAM_WEBHOOK_PATH",           "webhookPath",                 "str");
    ("TELEGRAM_MESSAGE_PREFIX",         "messagePrefix",               "str");
    ("TELEGRAM_LINK_PREVIEW",           "linkPreview",                 "bool_true");
    ("TELEGRAM_ACTIONS_REACTIONS",      "actions.reactions",           "bool_true");
    ("TELEGRAM_ACTIONS_STICKER",        "actions.sticker",             "bool_false");
    ("TELEGRAM_TEXT_CHUNK_LIMIT",       "textChunkLimit",              "int");
    ("TELEGRAM_MEDIA_MAX_MB",           "mediaMaxMb",                  "int");
    ("TELEGRAM_ALLOW_FROM",             "allowFrom",                   "csv_smart");
    ("TELEGRAM_GROUP_ALLOW_FROM",       "groupAllowFrom",              "csv_smart");
    ("TELEGRAM_INLINE_BUTTONS",         "capabilities.inlineButtons",  "str") ].

Definition discord : channel :=
  Channel "discord" (Gate "DISCORD_BOT_TOKEN") None true (Some (TokenField "token"))
  [ ("DISCORD_DM_POLICY",              "dm.policy",                   "str");
    ("DISCORD_GROUP_POLICY",           "groupPolicy",                 "str");
    ("DISCORD_REPLY_TO_MODE",          "replyToMode",                 "str");
    ("DISCORD_CHUNK_MODE",             "chunkMode",                   "str");
    ("DISCORD_REACTION_NOTIFICATIONS", "reactionNotifications",       "str");
    ("DISCORD_MESSAGE_PREFIX",         "messagePrefix",               "str");
    ("DISCORD_ALLOW_BOTS",             "allowBots",                   "bool_false");
    ("DISCORD_ACTIONS_REACTIONS",       "actions.reactions",          "bool_true");
    ("DISCORD_ACTIONS_STICKERS",        "actions.stickers",           "bool_true");
    ("DISCORD_ACTIONS_EMOJI_UPLOADS",   "actions.emojiUploads",       "bool_true");
    ("DISCORD_ACTIONS_STICKER_UPLOADS", "actions.stickerUploads",     "bool_true");
    ("DISCORD_ACTIONS_POLLS",           "actions.polls",              "bool_true");
    ("DISCORD_ACTIONS_PERMISSIONS",     "actions.permissions",        "bool_true");
    ("DISCORD_ACTIONS_MESSAGES",        "actions.messages",           "bool_true");
    ("DISCORD_ACTIONS_THREADS",         "actions.threads",            "bool_true");
    ("DISCORD_ACTIONS_PINS",            "actions.pins",               "bool_true");
    ("DISCORD_ACTIONS_SEARCH",          "actions.search",             "bool_true");
    ("DISCORD_ACTIONS_MEMBER_INFO",     "actions.memberInfo",         "bool_true");
    ("DISCORD_ACTIONS_ROLE_INFO",       "actions.roleInfo",           "bool_true");
    ("DISCORD_ACTIONS_CHANNEL_INFO",    "actions.channelInfo",        "bool_true");
    ("DISCORD_ACTIONS_CHANNELS",        "actions.channels",           "bool_true");
    ("DISCORD_ACTIONS_VOICE_STATUS",    "actions.voiceStatus",        "bool_true");
    ("DISCORD_ACTIONS_EVENTS",          "actions.events",             "bool_true");
    ("DISCORD_ACTIONS_ROLES",           "actions.roles",              "bool_false");
    ("DISCORD_ACTIONS_MODERATION",      "actions.moderation",         "bool_false");
    ("DISCORD_TEXT_CHUNK_LIMIT",        "textChunkLimit",             "int");
    ("DISCORD_MAX_LINES_PER_MESSAGE",   "maxLinesPerMessage",         "int");
    ("DISCORD_MEDIA_MAX_MB",            "mediaMaxMb",                 "int");
    ("DISCORD_HISTORY_LIMIT",           "historyLimit",               "int");
    ("DISCORD_DM_HISTORY_LIMIT",        "dmHistoryLimit",             "int");
    ("DISCORD_DM_ALLOW_FROM",           "dm.allowFrom",               "csv") ].

Definition slack : channel :=
  Channel "slack" (GateAll ["SLACK_BOT_TOKEN"; "SLACK_APP_TOKEN"]) None true
          (Some (TokenFields ["botToken"; "appToken"]))
  [ ("SLACK_USER_TOKEN",              "userToken",                    "str");
    ("SLACK_SIGNING_SECRET",          "signingSecret",                "str");
    ("SLACK_MODE",                    "mode",                         "str");
    ("SLACK_WEBHOOK_PATH",            "webhookPath",                  "str");
    ("SLACK_DM_POLICY",               "dm.policy",                    "str");
    ("SLACK_GROUP_POLICY",            "groupPolicy",                  "str");
    ("SLACK_REPLY_TO_MODE",           "replyToMode",                  "str");
    ("SLACK_REACTION_NOTIFICATIONS",  "reactionNotifications",        "str");
    ("SLACK_CHUNK_MODE",              "chunkMode",                    "str");
    ("SLACK_MESSAGE_PREFIX",          "messagePrefix",                "str");
    ("SLACK_ALLOW_BOTS",              "allowBots",                    "bool_false");
    ("SLACK_ACTIONS_REACTIONS",        "actions.reactions",           "bool_true");
    ("SLACK_ACTIONS_MESSAGES",         "actions.messages",            "bool_true");
    ("SLACK_ACTIONS_PINS",             "actions.pins",                "bool_true");
    ("SLACK_ACTIONS_MEMBER_INFO",      "actions.memberInfo",          "bool_true");
    ("SLACK_ACTIONS_EMOJI_LIST",       "actions.emojiList",           "bool_true");
    ("SLACK_HISTORY_LIMIT",           "historyLimit",                 "int");
    ("SLACK_TEXT_CHUNK_LIMIT",        "textChunkLimit",               "int");
    ("SLACK_MEDIA_MAX_MB",            "mediaMaxMb",                   "int");
    ("SLACK_DM_ALLOW_FROM",           "dm.allowFrom",                 "csv") ].

Definition whatsapp : channel :=
  Channel "whatsapp" (Gate "WHATSAPP_ENABLED") (Some "bool") false None
  [ ("WHATSAPP_DM_POLICY",              "dmPolicy",                  "str");
    ("WHATSAPP_GROUP_POLICY",           "groupPolicy",               "str");
    ("WHATSAPP_MESSAGE_PREFIX",         "messagePrefix",             "str");
    ("WHATSAPP_SELF_CHAT_MODE",         "selfChatMode",              "bool_false");
    ("WHATSAPP_SEND_READ_RECEIPTS",     "sendReadReceipts",          "bool_true");
    ("WHATSAPP_ACTIONS_REACTIONS",      "actions.reactions",         "bool_true");
    ("WHATSAPP_MEDIA_MAX_MB",           "mediaMaxMb",                "int");
    ("WHATSAPP_HISTORY_LIMIT",          "historyLimit",              "int");
    ("WHATSAPP_DM_HISTORY_LIMIT",       "dmHistoryLimit",            "int");
    ("WHATSAPP_ALLOW_FROM",             "allowFrom",                 "csv");
    ("WHATSAPP_GROUP_ALLOW_FROM",       "groupAllowFrom",            "csv");
    ("WHATSAPP_ACK_REACTION_EMOJI",     "ackReaction.emoji",         "str");
    ("WHATSAPP_ACK_REACTION_DIRECT",    "ackReaction.direct",        "bool_true");
    ("WHATSAPP_ACK_REACTION_GROUP",     "ackReaction.group",         "str") ].

Definition CHANNELS : list channel := [telegram; discord; slack; whatsapp].

Definition BROWSER_FIELDS : list field :=
  [ ("BROWSER_CDP_URL",                     "cdpUrl",                       "str");
    ("BROWSER_EVALUATE_ENABLED",            "evaluateEnabled",              "bool_false");
    ("BROWSER_SNAPSHOT_MODE",               "snapshotDefaults.mode",        "str");
    ("BROWSER_REMOTE_TIMEOUT_MS",           "remoteCdpTimeoutMs",           "int");
    ("BROWSER_REMOTE_HANDSHAKE_TIMEOUT_MS", "remoteCdpHandshakeTimeoutMs",  "int");
    ("BROWSER_DEFAULT_PROFILE",             "defaultProfile",               "str") ].

Definition HOOKS_FIELDS : list field :=
  [ ("HOOKS_TOKEN",  "token",  "str");
    ("HOOKS_PATH",   "path",   "str") ].

(* ------------------------------------------------------------------ *)
(** ** Paths *)

Definition WORKSPACE_DIR (env : environ) : string :=
  rstrip_slash (getenv env "OPENCLAW_WORKSPACE_DIR" "/data/workspace").

(* ------------------------------------------------------------------ *)
(** ** The sections of [main] *)

(** [config[p1]...[pn][k] = v] *)
Definition assign (config : json) (path : list string) (k : string) (v : json)
  : result json :=
  update_at config path (fun obj => setitem obj k v).

(** [config[p1]...[pn].get(k)] *)
Definition lookup (config : json) (path : list string) (k : string) : result json :=
  obj <- subscript config path ;; py_get obj k JNull.

(** [obj.pop(k, None)] *)
Definition pop_item (obj : json) (k : string) : result json :=
  match obj with
  | JDict d => Ok (JDict (dict_del d k))
  | _ => Raise AttributeError
  end.

(** [config[p1]...[pn].pop(k, None)] *)
Definition discard (config : json) (path : list string) (k : string) : result json :=
  update_at config path (fun obj => pop_item obj k).

Definition is_none (v : json) : bool :=
  match v with JNull => true | _ => false end.

(** 1. Load config: custom JSON, then the persisted file merged into it.
    [None] is a file that is missing or does not parse. *)
Definition load_config (custom persisted : option json) : result (json * bool) :=
  let config := match custom with Some c => c | None => JDict [] end in
  let has_custom_config := match custom with Some _ => true | None => false end in
  config <- match persisted with
            | Some p => deep_merge config p
            | None => Ok config
            end ;;
  Ok (config, has_custom_config).

(** 2. Gateway config *)
Definition gateway_config (env : environ) (config : json) : result json :=
  config <- ensure config ["gateway"] ;;
  config <-
    (if env_true env "OPENCLAW_GATEWAY_PORT" then
       raw <- environ_item env "OPENCLAW_GATEWAY_PORT" ;;
       match int_of_str raw with
       | Some port => assign config ["gateway"] "port" (JInt port)
       | None => Raise ValueError
       end
     else
       port <- lookup config ["gateway"] "port" ;;
       if negb (truthy port) then assign config ["gateway"] "port" (JInt 18789)
       else Ok config) ;;
  config <-
    (mode <- lookup config ["gateway"] "mode" ;;
     if negb (truthy mode) then assign config ["gateway"] "mode" (JStr "local")
     else Ok config) ;;
  let token := strip (getenv env "OPENCLAW_GATEWAY_TOKEN" "") in
  config <-
    (if nonempty token then
       config <- ensure config ["gateway"; "auth"] ;;
       config <- assign config ["gateway"; "auth"] "mode" (JStr "token") ;;
       assign config ["gateway"; "auth"] "token" (JStr token)
     else Ok config) ;;
  config <- ensure config ["gateway"; "controlUi"] ;;
  config <-
    (v <- lookup config ["gateway"; "controlUi"] "allowInsecureAuth" ;;
     if is_none v then assign config ["gateway"; "controlUi"] "allowInsecureAuth" (JBool true)
     else Ok config) ;;
  v <- lookup config ["gateway"; "controlUi"] "enabled" ;;
  if is_none v then assign config ["gateway"; "controlUi"] "enabled" (JBool true)
  else Ok config.

(** 3. Agents defaults *)
Definition agents_defaults (env : environ) (config : json) : result json :=
  config <- ensure config ["agents"; "defaults"] ;;
  config <-
    (w <- lookup config ["agents"; "defaults"] "workspace" ;;
     if negb (truthy w)
     then assign config ["agents"; "defaults"] "workspace" (JStr (WORKSPACE_DIR env))
     else Ok config) ;;
  ensure config ["agents"; "defaults"; "model"].

(** 4. Custom providers: the body of the loop, then the loop. *)
Definition custom_provider (env : environ) (has_custom_config : bool)
           (config : json) (prov : provider) : result json :=
  if env_true env (p_env prov) then
    api_key <- environ_item env (p_env prov) ;;
    config <- ensure config ["models"; "providers"] ;;
    let entry := [ ("api", JStr (p_api prov));
                   ("apiKey", JStr api_key);
                   ("models", p_models prov) ] in
    let entry :=
      match p_base prov with
      | BaseUrl url => dict_set entry "baseUrl" (JStr url)
      | BaseUrlEnv var default =>
          dict_set entry "baseUrl" (JStr (rstrip_slash (getenv env var default)))
      end in
    assign config ["models"; "providers"] (p_key prov) (JDict entry)
  else remove_provider config has_custom_config (p_key prov).

Fixpoint custom_providers (env : environ) (has_custom_config : bool)
         (config : json) (provs : list provider) : result json :=
  match provs with
  | [] => Ok config
  | prov :: rest =>
      config <- custom_provider env has_custom_config config prov ;;
      custom_providers env has_custom_config config rest
  end.

(** [a or b] on two variables and a literal *)
Definition env_or (env : environ) (k : string) (otherwise : string) : string :=
  if env_true env k then getenv env k "" else otherwise.

(** 5. Amazon Bedrock *)
Definition amazon_bedrock (env : environ) (has_custom_config : bool)
           (config : json) : result json :=
  if env_true env "AWS_ACCESS_KEY_ID" && env_true env "AWS_SECRET_ACCESS_KEY" then
    config <- ensure config ["models"; "providers"] ;;
    let region := env_or env "AWS_REGION" (env_or env "AWS_DEFAULT_REGION" "us-east-1") in
    config <- assign config ["models"; "providers"] "amazon-bedrock"
      (JDict [ ("api", JStr "bedrock-converse-stream");
               ("baseUrl", JStr ("https://bedrock-runtime." ++ region ++ ".amazonaws.com"));
               ("models", JList [
                  model_entry "anthropic.claude-opus-4-5-20251101-v1:0"
                              "Claude Opus 4.5 (Bedrock)" 200000;
                  model_entry "anthropic.claude-sonnet-4-5-20250929-v1:0"
                              "Claude Sonnet 4.5 (Bedrock)" 200000 ]) ]) ;;
    config <- ensure config ["models"] ;;
    assign config ["models"] "bedrockDiscovery"
      (JDict [ ("enabled", JBool true);
               ("region", JStr region);
               ("providerFilter", JStr (getenv env "BEDROCK_PROVIDER_FILTER" "anthropic"));
               ("refreshInterval", JInt 3600) ])
  else if negb has_custom_config then
    config <- del_provider config "amazon-bedrock" ;;
    models <- py_get config "models" JNull ;;
    match models with
    | JDict _ => discard config ["models"] "bedrockDiscovery"
    | _ => Ok config
    end
  else Ok config.

Definition ollama_url (env : environ) : string :=
  rstrip_slash (getenv env "OLLAMA_BASE_URL" "").

(** 6. Ollama *)
Definition ollama (env : environ) (has_custom_config : bool) (config : json)
  : result json :=
  if nonempty (ollama_url env) then
    config <- ensure config ["models"; "providers"] ;;
    let base := if endswith (ollama_url env) "/v1" then ollama_url env
                else ollama_url env ++ "/v1" in
    assign config ["models"; "providers"] "ollama"
      (JDict [ ("api", JStr "openai-completions");
               ("baseUrl", JStr base);
               ("models", JList [model_entry "llama3.3" "Llama 3.3" 128000]) ])
  else remove_provider config has_custom_config "ollama".

(** [os.environ.get("OPENCODE_API_KEY") or os.environ.get("OPENCODE_ZEN_API_KEY")] *)
Definition opencode_key (env : environ) : option string :=
  if env_true env "OPENCODE_API_KEY" then environ_get env "OPENCODE_API_KEY"
  else environ_get env "OPENCODE_ZEN_API_KEY".

(** [bool(v)] of a string or [None] *)
Definition truthy_str (v : option string) : bool :=
  match v with Some s => nonempty s | None => false end.

(** 7. Clean stale built-in provider entries *)
Fixpoint clean_builtin (has_custom_config : bool) (config : json)
         (builtins : list (string * string * string)) : result json :=
  match builtins with
  | [] => Ok config
  | (env_key, label, provider_key) :: rest =>
      config <- (if negb has_custom_config then del_provider config provider_key
                 else Ok config) ;;
      clean_builtin has_custom_config config rest
  end.

Definition clean_builtin_providers (has_custom_config : bool) (config : json)
  : result json :=
  config <- clean_builtin has_custom_config config BUILTIN_PROVIDERS ;;
  if negb has_custom_config then del_provider config "opencode" else Ok config.

(** [resolved_env] *)
Definition resolved_env (env : environ) : environ :=
  let resolved := dict_set env "_OPENCODE_KEY"
                    (match opencode_key env with Some k => k | None => "" end) in
  dict_set resolved "_OLLAMA_URL" (ollama_url env).

(** The [for ... break] loop of section 8: the model of the first entry
    whose signal is set. *)
Fixpoint first_signal (resolved : environ) (priority : list (string * string))
  : option string :=
  match priority with
  | [] => None
  | (env_key, model) :: rest =>
      if env_true resolved env_key then Some model else first_signal resolved rest
  end.

(** 8. Primary model selection *)
Definition primary_model_selection (env : environ) (config : json) : result json :=
  if env_true env "OPENCLAW_PRIMARY_MODEL" then
    v <- environ_item env "OPENCLAW_PRIMARY_MODEL" ;;
    assign config ["agents"; "defaults"; "model"] "primary" (JStr v)
  else
    cur <- lookup config ["agents"; "defaults"; "model"] "primary" ;;
    if truthy cur then Ok config
    else match first_signal (resolved_env env) PRIMARY_MODEL_PRIORITY with
         | Some model => assign config ["agents"; "defaults"; "model"] "primary" (JStr model)
         | None => Ok config
         end.

(** 9. Deepgram *)
Definition deepgram (env : environ) (config : json) : result json :=
  if env_true env "DEEPGRAM_API_KEY" then
    config <- ensure config ["tools"; "media"; "audio"] ;;
    config <- assign config ["tools"; "media"; "audio"] "enabled" (JBool true) ;;
    assign config ["tools"; "media"; "audio"] "models"
      (JList [JDict [("provider", JStr "deepgram"); ("model", JStr "nova-3")]])
  else Ok config.

(** 10. Channels *)
Definition gate_check (ch : channel) : string :=
  match ch_gateCheck ch with Some g => g | None => "token" end.

Definition gate_open (env : environ) (ch : channel) : bool :=
  match ch_gate ch with
  | GateAll gs => forallb (env_true env) gs
  | Gate g =>
      if String.eqb (gate_check ch) "bool" then
        let val := getenv env g "" in
        String.eqb (lower val) "true" || String.eqb (lower val) "1"
      else env_true env g
  end.

Fixpoint set_token_fields (env : environ) (channel_obj : json)
         (pairs : list (string * string)) : result json :=
  match pairs with
  | [] => Ok channel_obj
  | (g, tf) :: rest =>
      v <- environ_item env g ;;
      channel_obj <- setitem channel_obj tf (JStr v) ;;
      set_token_fields env channel_obj rest
  end.

Definition set_tokens (env : environ) (ch : channel) (channel_obj : json)
  : result json :=
  match ch_tokenField ch, ch_gate ch with
  | Some (TokenFields (tf :: tfs)), GateAll gs =>
      set_token_fields env channel_obj (combine gs (tf :: tfs))
  | Some (TokenField tf), Gate g =>
      if nonempty tf then
        v <- environ_item env g ;; setitem channel_obj tf (JStr v)
      else Ok channel_obj
  | _, _ => Ok channel_obj
  end.

Definition configure_channel (env : environ) (config : json) (ch : channel)
  : result json :=
  if gate_open env ch then
    config <- ensure config ["channels"] ;;
    update_at config ["channels"]
      (fun channels =>
         channel_obj <- (if ch_merge ch then setdefault channels (ch_key ch)
                         else Ok (JDict [])) ;;
         channel_obj <- setitem channel_obj "enabled" (JBool true) ;;
         channel_obj <- set_tokens env ch channel_obj ;;
         channel_obj <- apply_fields env channel_obj (ch_fields ch) ;;
         setitem channels (ch_key ch) channel_obj)
  else Ok config.

Fixpoint configure_channels (env : environ) (config : json) (chs : list channel)
  : result json :=
  match chs with
  | [] => Ok config
  | ch :: rest =>
      config <- configure_channel env config ch ;;
      configure_channels env config rest
  end.

Definition channels (env : environ) (config : json) : result json :=
  config <- configure_channels env config CHANNELS ;;
  chs <- py_get config "channels" JNull ;;
  match chs with
  | JDict [] => delitem config "channels"
  | _ => Ok config
  end.

(** 11. Browser tool *)
Definition browser_tool (env : environ) (config : json) : result json :=
  if env_true env "BROWSER_CDP_URL" then
    config <- ensure config ["browser"] ;;
    update_at config ["browser"] (fun b => apply_fields env b BROWSER_FIELDS)
  else Ok config.

Definition is_true_or_1 (val : string) : bool :=
  String.eqb (lower val) "true" || String.eqb (lower val) "1".

(** 12. Hooks *)
Definition hooks (env : environ) (config : json) : result json :=
  if is_true_or_1 (getenv env "HOOKS_ENABLED" "") then
    config <- ensure config ["hooks"] ;;
    config <- assign config ["hooks"] "enabled" (JBool true) ;;
    update_at config ["hooks"] (fun h => apply_fields env h HOOKS_FIELDS)
  else Ok config.

(** 14. Validate at least one provider *)
Definition has_provider (env : environ) : bool :=
  existsb (fun b => env_true env (fst (fst b))) BUILTIN_PROVIDERS
  || truthy_str (opencode_key env)
  || (env_true env "AWS_ACCESS_KEY_ID" && env_true env "AWS_SECRET_ACCESS_KEY")
  || nonempty (ollama_url env)
  || existsb (fun p => env_true env (p_env p)) CUSTOM_PROVIDERS.

(** The lines printed to standard error before [sys.exit(1)]. *)
Definition NO_PROVIDER_MESSAGE : list string :=
  [ "[configure] ERROR: No AI provider API key set.";
    "[configure] Providers require an env var -- API keys are never read from the JSON config.";
    "[configure] Set one of: ANTHROPIC_API_KEY, OPENAI_API_KEY, OPENROUTER_API_KEY, GEMINI_API_KEY,";
    "[configure]   XAI_API_KEY, GROQ_API_KEY, MISTRAL_API_KEY, CEREBRAS_API_KEY, ZAI_API_KEY,";
    "[configure]   AI_GATEWAY_API_KEY, OPENCODE_API_KEY, COPILOT_GITHUB_TOKEN, VENICE_API_KEY,";
    "[configure]   MOONSHOT_API_KEY, KIMI_API_KEY, MINIMAX_API_KEY, SYNTHETIC_API_KEY, XIAOMI_API_KEY,";
    "[configure]   AWS_ACCESS_KEY_ID+AWS_SECRET_ACCESS_KEY (Bedrock), or OLLAMA_BASE_URL (local)" ].

Definition validate_provider (env : environ) (config : json) : result json :=
  if negb (has_provider env) then Raise (SystemExit 1 NO_PROVIDER_MESSAGE)
  else Ok config.

(** Sections 1 to 7: the document when primary model selection starts. *)
Definition provider_sections (env : environ) (custom persisted : option json)
  : result json :=
  '(config, has_custom_config) <- load_config custom persisted ;;
  config <- gateway_config env config ;;
  config <- agents_defaults env config ;;
  config <- custom_providers env has_custom_config config CUSTOM_PROVIDERS ;;
  config <- amazon_bedrock env has_custom_config config ;;
  config <- ollama env has_custom_config config ;;
  clean_builtin_providers has_custom_config config.

(** Sections 9 to 13. *)
Definition feature_sections (env : environ) (config : json) : result json :=
  config <- deepgram env config ;;
  config <- channels env config ;;
  config <- browser_tool env config ;;
  config <- hooks env config ;;
  apply_convention_overrides env config.

(** Sections 1 to 13: the document the validator lets through. *)
Definition resolved_config (env : environ) (custom persisted : option json)
  : result json :=
  config <- provider_sections env custom persisted ;;
  config <- primary_model_selection env config ;;
  feature_sections env config.

(** Sections 1 to 14: the document that section 15 writes. *)
Definition build_config (env : environ) (custom persisted : option json)
  : result json :=
  config <- resolved_config env custom persisted ;;
  validate_provider env config.

(* ------------------------------------------------------------------ *)
(** ** Caddy snippets *)

(** What [subprocess.run(["caddy", "hash-password", ...])] returns. *)
Record completed_process : Type := CompletedProcess {
  returncode : Z;
  stdout : string;
  stderr : string
}.

Definition nl : string := String (chr 10) EmptyString.
Definition dquote : string := String (chr 34) EmptyString.

(** [str(v)] inside an f-string *)
Definition py_str (v : json) : string :=
  match v with
  | JStr s => s
  | _ => py_repr v
  end.

Definition auth_snippet (hash_password : string -> completed_process)
           (env : environ) : string :=
  let auth_password := getenv env "AUTH_PASSWORD" "" in
  let auth_username := getenv env "AUTH_USERNAME" "admin" in
  if nonempty auth_password then
    let result := hash_password auth_password in
    if returncode result =? 0 then
      let bcrypt_hash := strip (stdout result) in
      "(auth_block) {" ++ nl ++
      "    basicauth {" ++ nl ++
      "        " ++ auth_username ++ " " ++ bcrypt_hash ++ nl ++
      "    }" ++ nl ++
      "}" ++ nl
    else "(auth_block) {}" ++ nl
  else "(auth_block) {}" ++ nl.

Definition hooks_snippet (env : environ) (config : json) : result string :=
  let hooks_path := get_nested config "hooks.path" (JStr "/hooks") in
  h <- py_get config "hooks" (JDict []) ;;
  enabled <- py_get h "enabled" JNull ;;
  if truthy enabled then
    let gw_port := getenv env "OPENCLAW_GATEWAY_PORT" "18789" in
    let gw_token := getenv env "OPENCLAW_GATEWAY_TOKEN" "" in
    Ok ("handle " ++ py_str hooks_path ++ "* {" ++ nl ++
        "    reverse_proxy localhost:" ++ gw_port ++ " {" ++ nl ++
        "        header_up Authorization " ++ dquote ++ "Bearer " ++ gw_token ++ dquote ++ nl ++
        "    }" ++ nl ++
        "}" ++ nl)
  else Ok "".

(* ------------------------------------------------------------------ *)
(** ** Main *)

(** What a run leaves behind: how it ended ([None]: it returned) and the
    files it wrote before that. *)
Record run : Type := Run {
  raised : option exn;
  openclaw_json : option json;
  auth_caddyfile : option string;
  hooks_caddyfile : option string
}.

Definition exit_code (r : run) : Z :=
  match raised r with
  | None => 0
  | Some (SystemExit code _) => code
  | Some _ => 1
  end.

Definition main (hash_password : string -> completed_process)
           (env : environ) (custom persisted : option json) : run :=
  match build_config env custom persisted with
  | Raise e => Run (Some e) None None None
  | Ok config =>
      let auth_content := auth_snippet hash_password env in
      match hooks_snippet env config with
      | Raise e => Run (Some e) (Some config) (Some auth_content) None
      | Ok hooks_content =>
          Run None (Some config) (Some auth_content) (Some hooks_content)
      end
  end.

End Engine.

(* ------------------------------------------------------------------ *)
(** ** Vocabulary of the properties *)

(** The [for key, val in source.items()] loop, with the recursive call
    as [deep_merge] itself. *)
Fixpoint merge_items (items : list (string * json)) (target : json) : result json :=
  match items with
  | [] => Ok target
  | (key, val) :: rest =>
      target' <-
        match val with
        | JDict _ =>
            tv <- py_get target key JNull ;;
            match tv with
            | JDict _ => merged <- deep_merge tv val ;; setitem target key merged
            | _ => setitem target key val
            end
        | _ => setitem target key val
        end ;;
      merge_items rest target'
  end.

(** The node at [obj[k1][k2]...], if every node on the way is a mapping
    that has the next key. *)
Fixpoint get_path (obj : json) (path : list string) : option json :=
  match path with
  | [] => Some obj
  | k :: rest =>
      match obj with
      | JDict d => match dict_get d k with
                   | Some child => get_path child rest
                   | None => None
                   end
      | _ => None
      end
  end.

(** The two paths part ways: at some depth they name different keys. *)
Fixpoint diverge (p q : list string) : bool :=
  match p, q with
  | k1 :: r1, k2 :: r2 => if String.eqb k1 k2 then diverge r1 r2 else true
  | _, _ => false
  end.

(** [p] is an initial segment of [q]. *)
Fixpoint is_prefix (p q : list string) : bool :=
  match p, q with
  | [], _ => true
  | k1 :: r1, k2 :: r2 => String.eqb k1 k2 && is_prefix r1 r2
  | _ :: _, [] => false
  end.

(** The documents on which the loop of [set_nested] goes through: the
    document is a mapping, and so is every node that already exists on
    the way to the last key. *)
Fixpoint settable (obj : json) (k : string) (rest : list string) : bool :=
  match obj with
  | JDict d =>
      match rest with
      | [] => true
      | k' :: rest' =>
          match dict_get d k with
          | Some child => settable child k' rest'
          | None => true
          end
      end
  | _ => false
  end.

(** What [resolved_env.get(k)] is worth as a condition: the two special
    keys stand for the OpenCode key (either variable) and for the Ollama
    URL without its trailing slashes. *)
Definition resolved_signal (env : environ) (k : string) : bool :=
  if String.eqb k "_OLLAMA_URL" then nonempty (ollama_url env)
  else if String.eqb k "_OPENCODE_KEY" then truthy_str (opencode_key env)
  else env_true env k.


(** The primary model of a document, read as the source reads paths. *)
Definition primary_of (config : json) : json :=
  get_nested config "agents.defaults.model.primary" JNull.

(** Every variable that counts as a credential signal. *)
Definition CREDENTIAL_VARS : list string :=
  (map (fun b => fst (fst b)) BUILTIN_PROVIDERS
   ++ ["OPENCODE_API_KEY"; "OPENCODE_ZEN_API_KEY"]
   ++ map p_env CUSTOM_PROVIDERS
   ++ ["AWS_ACCESS_KEY_ID"; "AWS_SECRET_ACCESS_KEY"; "OLLAMA_BASE_URL"])%list.

(** The variables the diagnostic of the validator names. *)
Definition DIAGNOSTIC_VARS : list string :=
  filter (fun k => negb (String.eqb k "OPENCODE_ZEN_API_KEY")) CREDENTIAL_VARS.

(** The computation does not end in [sys.exit]. *)
Definition no_exit {A} (r : result A) : Prop :=
  forall code msg, r <> Raise (SystemExit code msg).

Definition item_le (a b : string * string) : Prop := item_leb a b = true.

(** The identifiers of the built-in providers. *)
Definition BUILTIN_IDS : list string :=
  (map snd BUILTIN_PROVIDERS ++ ["opencode"])%list.

(** The keys under which sections 4 to 6 write or delete an entry. *)
Definition EXPLICIT_KEYS : list string :=
  (map p_key CUSTOM_PROVIDERS ++ ["amazon-bedrock"; "ollama"])%list.

(** The path the override variable [key] writes. *)
Definition override_path (key : string) : list string :=
  split "." (replace_dunder (drop (String.length prefix) key)).

(** No convention override of the environment writes the node at [p],
    a node above it or a node below it. *)
Definition overrides_miss (env : environ) (p : list string) : Prop :=
  forall key raw,
    In (key, raw) env -> startswith key prefix = true ->
    diverge p (override_path key) = true.


(** The path a field mapping writes. *)
Definition field_path (f : field) : list string := split "." (snd (fst f)).



(** There is a mapping at the path. *)
Definition mapping_at (config : json) (path : list string) : Prop :=
  exists d, get_path config path = Some (JDict d).

(** What reading the path with [.get] on the last key gives: the node, or
    [None] where there is none. *)
Definition node_or_none (config : json) (path : list string) : json :=
  match get_path config path with
  | Some v => v
  | None => JNull
  end.

(** The entry section 4 writes for a custom provider whose variable is set. *)
Definition custom_entry (env : environ) (prov : provider) : json :=
  JDict [ ("api", JStr (p_api prov));
          ("apiKey", JStr (getenv env (p_env prov) ""));
          ("models", p_models prov);
          ("baseUrl", JStr match p_base prov with
                           | BaseUrl url => url
                           | BaseUrlEnv var default =>
                               rstrip_slash (getenv env var default)
                           end) ].

(** The region of section 5. *)
Definition bedrock_region (env : environ) : string :=
  env_or env "AWS_REGION" (env_or env "AWS_DEFAULT_REGION" "us-east-1").



(** The variable is a signal of the priority table under its own name. *)
Definition is_signal (k : string) : bool :=
  existsb (String.eqb k) (map fst PRIMARY_MODEL_PRIORITY)
  && negb (String.eqb k "_OLLAMA_URL") && negb (String.eqb k "_OPENCODE_KEY").



(** The library functions for the runs below.  No text of these runs is
    one that [float()] or [json.loads] accepts and no value that is not a
    string is formatted, so on these runs the three functions answer as
    Python does; the hash utility returns the given text. *)
Definition float_rejects : string -> option float := fun _ => None.
Definition loads_rejects : string -> option json := fun _ => None.
Definition repr_unused : json -> string := fun _ => "".
Definition hash_returns (text : string) : string -> completed_process :=
  fun _ => CompletedProcess 0 text "".

Definition run_example : environ -> option json -> option json -> run :=
  main float_rejects loads_rejects repr_unused (hash_returns "$2a$14$hash").

(** ** An induction principle that reaches below lists and dicts *)

Section JsonInd.
Variable P : json -> Prop.
Hypothesis HNull : P JNull.
Hypothesis HBool : forall b, P (JBool b).
Hypothesis HInt : forall n, P (JInt n).
Hypothesis HFloat : forall x, P (JFloat x).
Hypothesis HStr : forall s, P (JStr s).
Hypothesis HList : forall l, Forall P l -> P (JList l).
Hypothesis HDict : forall d, Forall (fun kv => P (snd kv)) d -> P (JDict d).

Fixpoint json_nested_ind (v : json) : P v :=
  match v with
  | JNull => HNull
  | JBool b => HBool b
  | JInt n => HInt n
  | JFloat x => HFloat x
  | JStr s => HStr s
  | JList l =>
      HList l ((fix all (l : list json) : Forall P l :=
                  match l with
                  | [] => Forall_nil _
                  | x :: r => Forall_cons x (json_nested_ind x) (all r)
                  end) l)
  | JDict d =>
      HDict d ((fix all (d : list (string * json))
                  : Forall (fun kv => P (snd kv)) d :=
                  match d with
                  | [] => Forall_nil _
                  | kv :: r => Forall_cons kv (json_nested_ind (snd kv)) (all r)
                  end) d)
  end.
End JsonInd.

(* ================================================================== *)
(** * Properties *)

(** ** Dictionaries *)

Lemma dict_get_set_eq {V} (d : dict V) k v : dict_get (dict_set d k v) k = Some v.
Proof.
  induction d as [|[k' v'] d IH]; simpl.
  - now rewrite String.eqb_refl.
  - destruct (String.eqb k' k) eqn:E; simpl.
    + now rewrite String.eqb_refl.
    + now rewrite E.
Qed.

Lemma dict_get_set_ne {V} (d : dict V) k k' v :
  k <> k' -> dict_get (dict_set d k v) k' = dict_get d k'.
Proof.
  intros Hne. induction d as [|[k0 v0] d IH]; simpl.
  - apply String.eqb_neq in Hne. now rewrite Hne.
  - destruct (String.eqb k0 k) eqn:E; simpl.
    + apply String.eqb_eq in E. subst k0.
      apply String.eqb_neq in Hne. now rewrite Hne.
    + now rewrite IH.
Qed.

Lemma dict_get_del_eq {V} (d : dict V) k : dict_get (dict_del d k) k = None.
Proof.
  induction d as [|[k' v'] d IH]; simpl; auto.
  destruct (String.eqb k' k) eqn:E; simpl; auto. now rewrite E.
Qed.

Lemma dict_get_del_ne {V} (d : dict V) k k' :
  k <> k' -> dict_get (dict_del d k) k' = dict_get d k'.
Proof.
  intros Hne. induction d as [|[k0 v0] d IH]; simpl; auto.
  destruct (String.eqb k0 k) eqn:E; simpl.
  - apply String.eqb_eq in E. subst k0.
    apply String.eqb_neq in Hne. now rewrite Hne.
  - now rewrite IH.
Qed.

Lemma dict_get_None_iff {V} (d : dict V) k : dict_get d k = None <-> ~ In k (keys d).
Proof.
  induction d as [|[k' v'] d IH]; simpl.
  - tauto.
  - destruct (String.eqb k' k) eqn:E.
    + apply String.eqb_eq in E. split; [discriminate | intros H; elim H; now left].
    + apply String.eqb_neq in E. rewrite IH. tauto.
Qed.

Lemma dict_set_fresh {V} (d : dict V) k v :
  ~ In k (keys d) -> dict_set d k v = (d ++ [(k, v)])%list.
Proof.
  induction d as [|[k' v'] d IH]; simpl; intros Hn; auto.
  destruct (String.eqb k' k) eqn:E.
  - apply String.eqb_eq in E. elim Hn. now left.
  - rewrite IH; auto.
Qed.

Lemma keys_dict_set {V} (d : dict V) k v k' :
  In k' (keys (dict_set d k v)) <-> k' = k \/ In k' (keys d).
Proof.
  induction d as [|[k0 v0] d IH]; simpl.
  - intuition.
  - destruct (String.eqb k0 k) eqn:E; simpl.
    + apply String.eqb_eq in E. subst. intuition.
    + rewrite IH. intuition.
Qed.

(** ** [deep_merge] *)

Lemma deep_merge_items target items :
  deep_merge target (JDict items) = merge_items items target.
Proof.
  reflexivity.
Qed.

Arguments deep_merge : simpl never.

(** Merging a mapping into a mapping never raises and yields a mapping. *)
Lemma deep_merge_total : forall source t,
  isinstance_dict source = true ->
  exists r, deep_merge (JDict t) source = Ok (JDict r).
Proof.
  induction source as [ | | | | | |d IHd] using json_nested_ind;
    intros t Hd; try discriminate.
  rewrite deep_merge_items. clear Hd. revert t.
  induction IHd as [|[key val] rest Hval _ IH]; intros t; simpl.
  - eauto.
  - simpl in Hval.
    destruct val; simpl; try apply IH.
    destruct (dict_get t key) as [tv|] eqn:E; simpl; try apply IH.
    destruct tv; simpl; try apply IH.
    destruct (Hval d0 eq_refl) as [m Hm]. rewrite Hm. simpl. apply IH.
Qed.

(** One turn of the loop: the key is (re)bound in place, to the source's
    value or, when both sides are mappings, to their merge. *)
Lemma merge_step (t : dict json) key val :
  exists x,
    match val with
    | JDict _ =>
        tv <- py_get (JDict t) key JNull ;;
        match tv with
        | JDict _ => merged <- deep_merge tv val ;; setitem (JDict t) key merged
        | _ => setitem (JDict t) key val
        end
    | _ => setitem (JDict t) key val
    end = Ok (JDict (dict_set t key x)) /\
    match val, dict_get t key with
    | JDict _, Some (JDict tv) => deep_merge (JDict tv) val = Ok x
    | _, _ => x = val
    end.
Proof.
  destruct val; simpl; try (eexists; split; reflexivity).
  destruct (dict_get t key) as [tv|] eqn:E; simpl; try (eexists; split; reflexivity).
  destruct tv; simpl; try (eexists; split; reflexivity).
  destruct (deep_merge_total (JDict d) d0 eq_refl) as [m Hm].
  rewrite Hm. simpl. eauto.
Qed.

Lemma merge_items_spec : forall (s t r : dict json),
  NoDup (keys s) ->
  merge_items s (JDict t) = Ok (JDict r) ->
  (forall k,
     match dict_get s k with
     | None => dict_get r k = dict_get t k
     | Some val =>
         match val, dict_get t k with
         | JDict _, Some (JDict tv) =>
             exists m, deep_merge (JDict tv) val = Ok m /\ dict_get r k = Some m
         | _, _ => dict_get r k = Some val
         end
     end) /\
  ((forall k, In k (keys s) -> ~ In k (keys t)) -> r = (t ++ s)%list).
Proof.
  induction s as [|[key val] rest IH]; intros t r Hnd Hm.
  - simpl in Hm. injection Hm as <-. split; [reflexivity|].
    intros _. now rewrite app_nil_r.
  - simpl in Hnd. inversion Hnd as [|? ? Hfresh Hnd']; subst.
    change (merge_items ((key, val) :: rest) (JDict t)) with
      (target' <- match val with
                  | JDict _ =>
                      tv <- py_get (JDict t) key JNull ;;
                      match tv with
                      | JDict _ => merged <- deep_merge tv val ;;
                                   setitem (JDict t) key merged
                      | _ => setitem (JDict t) key val
                      end
                  | _ => setitem (JDict t) key val
                  end ;; merge_items rest target') in Hm.
    destruct (merge_step t key val) as [x [Hstep Hx]].
    rewrite Hstep in Hm. simpl in Hm.
    destruct (IH _ _ Hnd' Hm) as [IHk IHd]. split.
    + intros k. specialize (IHk k). simpl.
      destruct (String.eqb key k) eqn:E.
      * apply String.eqb_eq in E. subst k.
        apply dict_get_None_iff in Hfresh. rewrite Hfresh in IHk.
        rewrite dict_get_set_eq in IHk.
        destruct val; try (rewrite IHk; f_equal; exact Hx).
        destruct (dict_get t key) as [[]|];
          try (rewrite IHk; f_equal; exact Hx).
        exists x. split; auto.
      * apply String.eqb_neq in E.
        rewrite dict_get_set_ne in IHk by exact E. exact IHk.
    + intros Hdis.
      assert (Hk : ~ In key (keys t)) by (apply Hdis; simpl; auto).
      assert (Hx' : x = val).
      { apply dict_get_None_iff in Hk. rewrite Hk in Hx. now destruct val. }
      subst x. rewrite dict_set_fresh in IHd by exact Hk.
      rewrite IHd.
      * now rewrite <- app_assoc.
      * intros k Hin Hin'. unfold keys in Hin'. rewrite map_app in Hin'.
        apply in_app_or in Hin'. destruct Hin' as [Hin'|[<-|[]]].
        -- apply (Hdis k); simpl; auto.
        -- auto.
Qed.

(** C5.  [deep_merge] of a mapping [source] into a mapping [target]
    succeeds, and in the result every key of [source] is bound to the
    merge of the two values when both are mappings and to the whole of
    [source]'s value otherwise (a list replaces a list, a scalar a
    mapping); every other key keeps [target]'s value.  When no key of
    [source] is a key of [target] the result is [target]'s entries
    followed by [source]'s. *)
Theorem deep_merge_is_deep (target source : dict json) :
  NoDup (keys source) ->
  exists r,
    deep_merge (JDict target) (JDict source) = Ok (JDict r) /\
    (forall k,
       match dict_get source k with
       | None => dict_get r k = dict_get target k
       | Some val =>
           match val, dict_get target k with
           | JDict _, Some (JDict tv) =>
               exists m, deep_merge (JDict tv) val = Ok m /\ dict_get r k = Some m
           | _, _ => dict_get r k = Some val
           end
       end) /\
    ((forall k, In k (keys source) -> ~ In k (keys target)) ->
     r = (target ++ source)%list).
Proof.
  intros Hnd.
  destruct (deep_merge_total (JDict source) target eq_refl) as [r Hr].
  exists r. split; [exact Hr|].
  rewrite deep_merge_items in Hr.
  exact (merge_items_spec source target r Hnd Hr).
Qed.

Lemma deep_merge_is_deep_witness :
  exists r,
    deep_merge (JDict [("a", JDict [("x", JInt 1)]); ("b", JList [JInt 1])])
               (JDict [("b", JList [JInt 2]); ("a", JDict [("y", JInt 2)]);
                       ("c", JNull)])
      = Ok (JDict r) /\
    dict_get r "b" = Some (JList [JInt 2]) /\
    dict_get r "a" = Some (JDict [("x", JInt 1); ("y", JInt 2)]).
Proof.
  destruct (deep_merge_is_deep
              [("a", JDict [("x", JInt 1)]); ("b", JList [JInt 1])]
              [("b", JList [JInt 2]); ("a", JDict [("y", JInt 2)]); ("c", JNull)])
    as [r [Hr [Hk _]]].
  - repeat constructor; simpl; intuition discriminate.
  - exists r. split; [exact Hr|]. split.
    + exact (Hk "b").
    + destruct (Hk "a") as [m [Hm Hg]]. rewrite Hg. f_equal.
      vm_compute in Hm. now injection Hm as <-.
Defined.

(* ------------------------------------------------------------------ *)
(** ** Reading a document along a path, and what a write leaves alone *)

Lemma get_path_app obj p r :
  get_path obj (p ++ r) =
  match get_path obj p with Some node => get_path node r | None => None end.
Proof.
  revert obj. induction p as [|k p IH]; intros obj; simpl; auto.
  destruct obj; auto. destruct (dict_get d k); auto.
Qed.

Lemma diverge_sym p q : diverge p q = diverge q p.
Proof.
  revert q. induction p as [|k p IH]; intros [|k' q]; simpl; auto.
  rewrite String.eqb_sym. now rewrite IH.
Qed.

Lemma diverge_snoc p q k :
  diverge p (q ++ [k]) = true ->
  diverge p q = true \/ exists k' r, p = (q ++ k' :: r)%list /\ k' <> k.
Proof.
  revert p. induction q as [|k0 q IH]; intros [|k1 p]; simpl; try discriminate.
  - destruct (String.eqb k1 k) eqn:E; try discriminate.
    + destruct p; discriminate.
    + intros _. right. exists k1, p. split; auto. now apply String.eqb_neq.
  - destruct (String.eqb k1 k0) eqn:E; auto.
    intros H. destruct (IH _ H) as [Hd|[k' [r [-> Hne]]]]; auto.
    apply String.eqb_eq in E. subst. right. eauto.
Qed.

Lemma getitem_inv obj k v :
  getitem obj k = Ok v -> exists d, obj = JDict d /\ dict_get d k = Some v.
Proof.
  destruct obj; simpl; try discriminate.
  destruct (dict_get d k) eqn:E; try discriminate.
  intros H. injection H as <-. eauto.
Qed.

Lemma setitem_inv obj k v obj' :
  setitem obj k v = Ok obj' -> exists d, obj = JDict d /\ obj' = JDict (dict_set d k v).
Proof. destruct obj; simpl; try discriminate. intros H. injection H as <-. eauto. Qed.

Lemma bind_inv {A B} (m : result A) (f : A -> result B) r :
  bind m f = Ok r -> exists a, m = Ok a /\ f a = Ok r.
Proof. destruct m; simpl; try discriminate. eauto. Qed.

Lemma setitem_get obj k v obj' r :
  setitem obj k v = Ok obj' -> get_path obj' (k :: r) = get_path v r.
Proof.
  intros H. apply setitem_inv in H as [d [-> ->]]. simpl.
  now rewrite dict_get_set_eq.
Qed.

Lemma setitem_frame obj k v obj' p :
  setitem obj k v = Ok obj' -> diverge p [k] = true ->
  get_path obj' p = get_path obj p.
Proof.
  intros H Hd. apply setitem_inv in H as [d [-> ->]].
  destruct p as [|k1 p]; simpl in *; try discriminate.
  destruct (String.eqb k1 k) eqn:E.
  - destruct p; discriminate.
  - apply String.eqb_neq in E. rewrite dict_get_set_ne; auto.
Qed.

Lemma delitem_frame obj k obj' p :
  delitem obj k = Ok obj' -> diverge p [k] = true ->
  get_path obj' p = get_path obj p.
Proof.
  destruct obj; simpl; try discriminate.
  destruct (dict_mem d k); try discriminate.
  intros H Hd. injection H as <-.
  destruct p as [|k1 p]; simpl in *; try discriminate.
  destruct (String.eqb k1 k) eqn:E.
  - destruct p; discriminate.
  - apply String.eqb_neq in E. rewrite dict_get_del_ne; auto.
Qed.

Lemma delitem_get obj k obj' r :
  delitem obj k = Ok obj' -> get_path obj' (k :: r) = None.
Proof.
  destruct obj; simpl; try discriminate.
  destruct (dict_mem d k); try discriminate.
  intros H. injection H as <-. simpl. now rewrite dict_get_del_eq.
Qed.

(** [update_at]: the node at [q] exists and is replaced by what [f]
    makes of it; everything off the path [q] stays. *)
Lemma update_at_inv : forall q cfg f cfg',
  update_at cfg q f = Ok cfg' ->
  exists node node',
    get_path cfg q = Some node /\ f node = Ok node' /\
    forall r, get_path cfg' (q ++ r) = get_path node' r.
Proof.
  induction q as [|k q IH]; intros cfg f cfg' H; simpl in H.
  - exists cfg, cfg'. simpl. auto.
  - apply bind_inv in H as [child [Hc H]].
    apply bind_inv in H as [child' [Hu H]].
    apply getitem_inv in Hc as [d [-> Hg]].
    destruct (IH _ _ _ Hu) as [node [node' [Hn [Hf Hr]]]].
    exists node, node'. simpl. rewrite Hg. repeat split; auto.
    intros r. rewrite <- Hr. simpl in H. injection H as <-.
    simpl. now rewrite dict_get_set_eq.
Qed.

Lemma update_at_frame : forall q cfg f cfg' p,
  update_at cfg q f = Ok cfg' -> diverge p q = true ->
  get_path cfg' p = get_path cfg p.
Proof.
  induction q as [|k q IH]; intros cfg f cfg' p H Hd.
  - destruct p; discriminate.
  - simpl in H.
    apply bind_inv in H as [child [Hc H]].
    apply bind_inv in H as [child' [Hu H]].
    apply getitem_inv in Hc as [d [-> Hg]].
    simpl in H. injection H as <-.
    destruct p as [|k1 p]; simpl in *; try discriminate.
    destruct (String.eqb k1 k) eqn:E.
    + apply String.eqb_eq in E. subst k1.
      rewrite dict_get_set_eq, Hg. eapply IH; eauto.
    + apply String.eqb_neq in E. rewrite dict_get_set_ne; auto.
Qed.

(** [update_at] when [f] itself leaves the sub-path [r] alone. *)
Lemma update_at_frame_in q cfg f cfg' r :
  update_at cfg q f = Ok cfg' ->
  (forall node node', f node = Ok node' -> get_path node' r = get_path node r) ->
  get_path cfg' (q ++ r) = get_path cfg (q ++ r).
Proof.
  intros H Hf. destruct (update_at_inv _ _ _ _ H) as [node [node' [Hn [Hfn Hr]]]].
  rewrite Hr, get_path_app, Hn. eauto.
Qed.

Lemma assign_frame cfg q k v cfg' p :
  assign cfg q k v = Ok cfg' -> diverge p (q ++ [k]) = true ->
  get_path cfg' p = get_path cfg p.
Proof.
  unfold assign. intros H Hd.
  destruct (diverge_snoc _ _ _ Hd) as [Hq|[k' [r [-> Hne]]]].
  - eapply update_at_frame; eauto.
  - eapply update_at_frame_in; eauto.
    intros node node' Hs. apply (setitem_frame _ _ _ _ _ Hs).
    simpl. apply String.eqb_neq in Hne. now rewrite Hne.
Qed.

Lemma assign_get cfg q k v cfg' :
  assign cfg q k v = Ok cfg' -> get_path cfg' (q ++ [k]) = Some v.
Proof.
  unfold assign. intros H.
  destruct (update_at_inv _ _ _ _ H) as [node [node' [Hn [Hf Hr]]]].
  rewrite Hr. now rewrite (setitem_get _ _ _ _ [] Hf).
Qed.

Lemma pop_item_frame obj k obj' p :
  pop_item obj k = Ok obj' -> diverge p [k] = true ->
  get_path obj' p = get_path obj p.
Proof.
  destruct obj; simpl; try discriminate.
  intros H Hd. injection H as <-.
  destruct p as [|k1 p]; simpl in *; try discriminate.
  destruct (String.eqb k1 k) eqn:E.
  - destruct p; discriminate.
  - apply String.eqb_neq in E. rewrite dict_get_del_ne; auto.
Qed.

Lemma discard_frame cfg q k cfg' p :
  discard cfg q k = Ok cfg' -> diverge p (q ++ [k]) = true ->
  get_path cfg' p = get_path cfg p.
Proof.
  unfold discard. intros H Hd.
  destruct (diverge_snoc _ _ _ Hd) as [Hq|[k' [r [-> Hne]]]].
  - eapply update_at_frame; eauto.
  - eapply update_at_frame_in; eauto.
    intros node node' Hs. apply (pop_item_frame _ _ _ _ Hs).
    simpl. apply String.eqb_neq in Hne. now rewrite Hne.
Qed.

(** [ensure] only touches what lies on its path. *)
Lemma ensure_frame : forall q cfg cfg' p,
  ensure cfg q = Ok cfg' -> is_prefix p q = false ->
  get_path cfg' p = get_path cfg p.
Proof.
  induction q as [|k q IH]; intros cfg cfg' p H Hp; simpl in H.
  - now injection H as <-.
  - destruct cfg; try discriminate.
    apply bind_inv in H as [cur' [Hc H]]. injection H as <-.
    destruct p as [|k1 p]; simpl in *; try discriminate.
    destruct (String.eqb k1 k) eqn:E; simpl in Hp.
    + apply String.eqb_eq in E. subst k1. rewrite dict_get_set_eq.
      rewrite (IH _ _ _ Hc Hp).
      destruct (dict_get d k) as [[]|]; auto;
        destruct p; simpl in *; try discriminate; auto.
    + apply String.eqb_neq in E. rewrite dict_get_set_ne; auto.
Qed.

(** After [ensure] there is a mapping at the path. *)
Lemma ensure_dict : forall q cfg cfg',
  ensure cfg q = Ok cfg' -> isinstance_dict cfg = true ->
  exists d, get_path cfg' q = Some (JDict d).
Proof.
  induction q as [|k q IH]; intros cfg cfg' H Hd; simpl in H.
  - injection H as <-. destruct cfg; try discriminate. simpl. eauto.
  - destruct cfg; try discriminate.
    apply bind_inv in H as [cur' [Hc H]]. injection H as <-.
    simpl. rewrite dict_get_set_eq. eapply IH; eauto.
    destruct (dict_get d k) as [[]|]; reflexivity.
Qed.

Lemma ensure_top cfg q cfg' :
  ensure cfg q = Ok cfg' -> q <> [] -> isinstance_dict cfg' = true.
Proof.
  destruct q; [congruence|]. simpl. destruct cfg; try discriminate.
  intros H _. apply bind_inv in H as [c [_ H]]. now injection H as <-.
Qed.


Lemma set_keys_frame : forall rest obj k v obj' p,
  set_keys obj k rest v = Ok obj' -> diverge p (k :: rest) = true ->
  get_path obj' p = get_path obj p.
Proof.
  induction rest as [|k' rest IH]; intros obj k v obj' p H Hd; simpl in H.
  - eapply setitem_frame; eauto.
  - apply bind_inv in H as [child [Hc H]].
    apply bind_inv in H as [child' [Hs H]].
    destruct p as [|k1 p]; try discriminate.
    simpl in Hd. destruct (String.eqb k1 k) eqn:E.
    + apply String.eqb_eq in E. subst k1.
      rewrite (setitem_get _ _ _ _ _ H), (IH _ _ _ _ _ Hs Hd).
      unfold setdefault in Hc. destruct obj; try discriminate. simpl in *.
      destruct (dict_get d k); injection Hc as <-; auto.
      destruct p; try discriminate. reflexivity.
    + eapply setitem_frame; eauto. simpl. now rewrite E.
Qed.

Lemma set_keys_dict rest obj k v obj' :
  set_keys obj k rest v = Ok obj' -> isinstance_dict obj' = true.
Proof.
  destruct rest; simpl; intros H.
  - apply setitem_inv in H as [d [_ ->]]. reflexivity.
  - apply bind_inv in H as [child [Hc H]].
    apply bind_inv in H as [child' [Hs H]].
    apply setitem_inv in H as [d [_ ->]]. reflexivity.
Qed.

(** With the default [None], [get_nested] reads the node at the path. *)
Lemma get_keys_null : forall p obj,
  get_keys obj p JNull =
  match get_path obj p with Some v => v | None => JNull end.
Proof.
  induction p as [|k p IH]; intros obj; simpl; auto.
  destruct obj; auto. destruct (dict_get d k) as [v|]; auto.
  destruct v; simpl; auto; try apply IH.
  destruct p; reflexivity.
Qed.

(* ------------------------------------------------------------------ *)
(** ** [set_nested] and [get_nested] *)

Lemma json_is_eq a b : json_is a b = true -> a = b.
Proof.
  destruct a, b; simpl; try discriminate; auto.
  intros H. apply Bool.eqb_prop in H. now subst.
Qed.

Lemma set_keys_get_keys : forall rest obj k v obj' default,
  set_keys obj k rest v = Ok obj' -> get_keys obj' (k :: rest) default = v.
Proof.
  induction rest as [|k' rest IH]; intros obj k v obj' default H; simpl in H.
  - apply setitem_inv in H as [d [-> ->]]. simpl. rewrite dict_get_set_eq.
    destruct (json_is v default) eqn:E; auto.
    symmetry. now apply json_is_eq.
  - apply bind_inv in H as [child [Hc H]].
    apply bind_inv in H as [child' [Hs H]].
    apply setitem_inv in H as [d [-> ->]].
    change (get_keys (JDict (dict_set d k child')) (k :: k' :: rest) default)
      with (match dict_get (dict_set d k child') k with
            | None => default
            | Some v0 => if json_is v0 default then default
                         else get_keys v0 (k' :: rest) default
            end).
    rewrite dict_get_set_eq.
    pose proof (set_keys_dict _ _ _ _ _ Hs) as Hd.
    destruct child'; try discriminate. simpl json_is. cbv iota.
    eapply IH; eauto.
Qed.

(** Where [set_nested] returns, [get_nested] reads the value back. *)
Theorem set_nested_get_nested obj dotpath value default obj' :
  set_nested obj dotpath value = Ok obj' ->
  get_nested obj' dotpath default = value.
Proof.
  unfold set_nested, get_nested.
  destruct (split "." dotpath) as [|k rest]; try discriminate.
  apply set_keys_get_keys.
Qed.

Lemma set_nested_get_nested_witness :
  set_nested (JDict [("actions", JDict [("pins", JBool true)])])
             "actions.reactions" (JBool false)
    = Ok (JDict [("actions", JDict [("pins", JBool true);
                                    ("reactions", JBool false)])]) /\
  get_nested (JDict [("actions", JDict [("pins", JBool true);
                                        ("reactions", JBool false)])])
             "actions.reactions" JNull = JBool false.
Proof.
  split; [reflexivity|].
  apply (set_nested_get_nested
           (JDict [("actions", JDict [("pins", JBool true)])])).
  reflexivity.
Defined.

Lemma settable_fresh : forall rest k, settable (JDict []) k rest = true.
Proof. destruct rest; reflexivity. Qed.

(** [set_nested] returns exactly on those documents; on the others it
    raises. *)
Theorem set_keys_succeeds_iff : forall rest obj k v,
  (exists obj', set_keys obj k rest v = Ok obj') <-> settable obj k rest = true.
Proof.
  induction rest as [|k' rest IH]; intros obj k v.
  - destruct obj; simpl; split; try discriminate; eauto;
      intros [o H]; discriminate.
  - destruct obj; try (simpl; split; [intros [o H]; discriminate | discriminate]).
    change (settable (JDict d) k (k' :: rest))
      with (match dict_get d k with
            | Some child => settable child k' rest
            | None => true
            end).
    simpl set_keys. unfold setdefault. simpl py_get.
    destruct (dict_get d k) as [child|]; simpl bind.
    + rewrite <- (IH child k' v). split.
      * intros [o H]. apply bind_inv in H as [c' [Hs _]]. eauto.
      * intros [c' Hs]. rewrite Hs. simpl. eauto.
    + split; auto. intros _.
      destruct (proj2 (IH (JDict []) k' v) (settable_fresh rest k')) as [c' Hs].
      rewrite Hs. simpl. eauto.
Qed.

(** C6.  On a document whose intermediate node is not a mapping
    [set_nested] raises and sets nothing, where [ensure], given the same
    document and path, replaces the node by an empty mapping. *)
Theorem set_nested_raises_on_non_mapping :
  set_nested (JDict [("a", JInt 1)]) "a.b" (JInt 2) = Raise TypeError /\
  set_nested (JDict [("a", JInt 1)]) "a.b.c" (JInt 2) = Raise AttributeError /\
  ensure (JDict [("a", JInt 1)]) ["a"; "b"]
    = Ok (JDict [("a", JDict [("b", JDict [])])]).
Proof. repeat split; reflexivity. Qed.

(** C7.  No value can be read back on such a document: the write raises.
    Here the intermediate node is the gateway port set by [main]. *)
Theorem set_then_get_raises_on_non_mapping :
  set_nested (JDict [("gateway", JDict [("port", JInt 18789)])])
             "gateway.port.x" (JInt 1) = Raise TypeError /\
  get_nested (JDict [("gateway", JDict [("port", JInt 18789)])])
             "gateway.port.x" JNull = JNull.
Proof. split; reflexivity. Qed.

(* ------------------------------------------------------------------ *)
(** ** Reading the environment *)

Lemma env_true_set env k0 x k :
  env_true (dict_set env k0 x) k =
  if String.eqb k0 k then nonempty x else env_true env k.
Proof.
  unfold env_true, getenv, environ_get.
  destruct (String.eqb k0 k) eqn:E.
  - apply String.eqb_eq in E. subst. now rewrite dict_get_set_eq.
  - apply String.eqb_neq in E. now rewrite dict_get_set_ne.
Qed.

Lemma env_true_resolved env k :
  env_true (resolved_env env) k = resolved_signal env k.
Proof.
  unfold resolved_env, resolved_signal. rewrite !env_true_set.
  rewrite (String.eqb_sym "_OLLAMA_URL"), (String.eqb_sym "_OPENCODE_KEY").
  destruct (String.eqb k "_OLLAMA_URL"); auto.
  destruct (String.eqb k "_OPENCODE_KEY"); auto.
  unfold truthy_str. now destruct (opencode_key env).
Qed.

Lemma opencode_key_truthy env :
  truthy_str (opencode_key env) =
  env_true env "OPENCODE_API_KEY" || env_true env "OPENCODE_ZEN_API_KEY".
Proof.
  unfold opencode_key.
  destruct (env_true env "OPENCODE_API_KEY") eqn:E; simpl.
  - unfold env_true, getenv in E. unfold truthy_str, nonempty.
    destruct (environ_get env "OPENCODE_API_KEY"); auto.
  - unfold env_true, getenv, truthy_str, nonempty.
    destruct (environ_get env "OPENCODE_ZEN_API_KEY"); auto.
Qed.

Lemma first_signal_ext (e1 e2 : environ) :
  (forall k, env_true e1 k = env_true e2 k) ->
  forall priority, first_signal e1 priority = first_signal e2 priority.
Proof.
  intros H. induction priority as [|[k m] rest IH]; simpl; auto.
  now rewrite H, IH.
Qed.

Lemma existsb_pointwise {A} (f g : A -> bool) l :
  (forall x, f x = g x) -> existsb f l = existsb g l.
Proof. intros H. induction l; simpl; auto. now rewrite H, IHl. Qed.

Lemma forallb_pointwise {A} (f g : A -> bool) l :
  (forall x, f x = g x) -> forallb f l = forallb g l.
Proof. intros H. induction l; simpl; auto. now rewrite H, IHl. Qed.








(* ------------------------------------------------------------------ *)
(** ** What each section of [main] leaves alone *)

Lemma diverge_hd p k rest : diverge p [k] = true -> diverge p (k :: rest) = true.
Proof.
  destruct p as [|k1 p]; simpl; try discriminate.
  destruct (String.eqb k1 k); auto. destruct p; discriminate.
Qed.

Lemma diverge_hd_prefix p k rest :
  diverge p [k] = true -> is_prefix p (k :: rest) = false.
Proof.
  destruct p as [|k1 p]; simpl; try discriminate.
  destruct (String.eqb k1 k); auto. destruct p; discriminate.
Qed.

Lemma update_at_key_frame cfg q f cfg' k p :
  update_at cfg q f = Ok cfg' ->
  (forall node node' p', f node = Ok node' -> diverge p' [k] = true ->
                         get_path node' p' = get_path node p') ->
  diverge p (q ++ [k]) = true ->
  get_path cfg' p = get_path cfg p.
Proof.
  intros H Hf Hd.
  destruct (diverge_snoc _ _ _ Hd) as [Hq|[k' [r [-> Hne]]]].
  - eapply update_at_frame; eauto.
  - eapply update_at_frame_in; eauto.
    intros node node' Hs. apply (Hf _ _ _ Hs).
    simpl. apply String.eqb_neq in Hne. now rewrite Hne.
Qed.

Lemma get_nested_providers cfg :
  get_nested cfg "models.providers" JNull =
  match get_path cfg ["models"; "providers"] with Some v => v | None => JNull end.
Proof. unfold get_nested. simpl split. apply get_keys_null. Qed.

Lemma del_provider_frame cfg name cfg' p :
  del_provider cfg name = Ok cfg' ->
  diverge p ["models"; "providers"; name] = true ->
  get_path cfg' p = get_path cfg p.
Proof.
  unfold del_provider. intros H Hd.
  destruct (get_nested cfg "models.providers" JNull);
    try (now injection H as <-).
  destruct (dict_mem d name); try (now injection H as <-).
  apply (update_at_key_frame _ _ _ _ name p H); auto.
  intros node node' p' Hn Hp. eapply delitem_frame; eauto.
Qed.

Lemma del_provider_get cfg name cfg' :
  del_provider cfg name = Ok cfg' ->
  get_path cfg' ["models"; "providers"; name] = None.
Proof.
  unfold del_provider. rewrite get_nested_providers. intros H.
  change ["models"; "providers"; name] with (["models"; "providers"] ++ [name])%list.
  destruct (get_path cfg ["models"; "providers"]) as [v|] eqn:E.
  - destruct v; try (injection H as <-; rewrite get_path_app, E; reflexivity).
    destruct (dict_mem d name) eqn:Em.
    + destruct (update_at_inv _ _ _ _ H) as [node [node' [_ [Hf Hr]]]].
      rewrite Hr. eapply delitem_get; eauto.
    + injection H as <-. rewrite get_path_app, E. simpl.
      unfold dict_mem in Em. now destruct (dict_get d name).
  - injection H as <-. now rewrite get_path_app, E.
Qed.

Lemma remove_provider_frame cfg hc name cfg' p :
  remove_provider cfg hc name = Ok cfg' ->
  diverge p ["models"; "providers"; name] = true ->
  get_path cfg' p = get_path cfg p.
Proof.
  unfold remove_provider. destruct hc; simpl.
  - now intros [= <-].
  - apply del_provider_frame.
Qed.

(** Taking a run apart: every step that returned, with what it returned. *)
Ltac run_inv :=
  repeat match goal with
  | H : Raise _ = Ok _ |- _ => discriminate H
  | H : Ok _ = Ok _ |- _ => injection H as H; try subst
  | H : bind ?m ?f = Ok _ |- _ =>
      let a := fresh "c" in
      let E := fresh "E" in
      apply bind_inv in H; destruct H as [a [E H]]; cbv beta in H
  | H : (if ?b then _ else _) = Ok _ |- _ =>
      let B := fresh "B" in destruct b eqn:B
  | H : match ?x with _ => _ end = Ok _ |- _ =>
      let M := fresh "M" in destruct x eqn:M
  end.

(** Turning every step into what it preserves at the path of the goal;
    [side] proves that the path parts ways with the step's. *)
Ltac frame_with side :=
  repeat match goal with
  | H : ensure ?c ?q = Ok ?c' |- get_path _ ?p = _ =>
      apply (ensure_frame q c c' p) in H; [|side]
  | H : assign ?c ?q ?k ?v = Ok ?c' |- get_path _ ?p = _ =>
      apply (assign_frame c q k v c' p) in H; [|side]
  | H : discard ?c ?q ?k = Ok ?c' |- get_path _ ?p = _ =>
      apply (discard_frame c q k c' p) in H; [|side]
  | H : update_at ?c ?q ?f = Ok ?c' |- get_path _ ?p = _ =>
      apply (update_at_frame q c f c' p) in H; [|side]
  | H : setitem ?c ?k ?v = Ok ?c' |- get_path _ ?p = _ =>
      apply (setitem_frame c k v c' p) in H; [|side]
  | H : delitem ?c ?k = Ok ?c' |- get_path _ ?p = _ =>
      apply (delitem_frame c k c' p) in H; [|side]
  | H : del_provider ?c ?n = Ok ?c' |- get_path _ ?p = _ =>
      apply (del_provider_frame c n c' p) in H; [|side]
  | H : remove_provider ?c ?hc ?n = Ok ?c' |- get_path _ ?p = _ =>
      apply (remove_provider_frame c hc n c' p) in H; [|side]
  end;
  congruence.

Ltac side_hd Hd :=
  first [ exact Hd
        | apply diverge_hd; exact Hd
        | apply diverge_hd_prefix; exact Hd ].

Lemma gateway_config_frame env cfg cfg' p :
  gateway_config env cfg = Ok cfg' -> diverge p ["gateway"] = true ->
  get_path cfg' p = get_path cfg p.
Proof.
  unfold gateway_config. intros H Hd. run_inv; frame_with ltac:(side_hd Hd).
Qed.

Lemma agents_defaults_frame env cfg cfg' p :
  agents_defaults env cfg = Ok cfg' -> diverge p ["agents"] = true ->
  get_path cfg' p = get_path cfg p.
Proof.
  unfold agents_defaults. intros H Hd. run_inv; frame_with ltac:(side_hd Hd).
Qed.

Lemma custom_provider_frame env hc cfg prov cfg' p :
  custom_provider env hc cfg prov = Ok cfg' -> diverge p ["models"] = true ->
  get_path cfg' p = get_path cfg p.
Proof.
  unfold custom_provider. intros H Hd. run_inv; frame_with ltac:(side_hd Hd).
Qed.

Lemma custom_providers_frame env hc provs : forall cfg cfg' p,
  custom_providers env hc cfg provs = Ok cfg' -> diverge p ["models"] = true ->
  get_path cfg' p = get_path cfg p.
Proof.
  induction provs as [|prov rest IH]; simpl; intros cfg cfg' p H Hd.
  - now injection H as <-.
  - apply bind_inv in H as [c [E H]].
    rewrite (IH _ _ _ H Hd). eapply custom_provider_frame; eauto.
Qed.

Lemma amazon_bedrock_frame env hc cfg cfg' p :
  amazon_bedrock env hc cfg = Ok cfg' -> diverge p ["models"] = true ->
  get_path cfg' p = get_path cfg p.
Proof.
  unfold amazon_bedrock. intros H Hd. run_inv; frame_with ltac:(side_hd Hd).
Qed.

Lemma ollama_frame env hc cfg cfg' p :
  ollama env hc cfg = Ok cfg' -> diverge p ["models"] = true ->
  get_path cfg' p = get_path cfg p.
Proof.
  unfold ollama. intros H Hd. run_inv; frame_with ltac:(side_hd Hd).
Qed.

Lemma clean_builtin_frame hc builtins : forall cfg cfg' p,
  clean_builtin hc cfg builtins = Ok cfg' -> diverge p ["models"] = true ->
  get_path cfg' p = get_path cfg p.
Proof.
  induction builtins as [|[[env_key label] provider_key] rest IH]; simpl;
    intros cfg cfg' p H Hd.
  - now injection H as <-.
  - apply bind_inv in H as [c [E H]].
    rewrite (IH _ _ _ H Hd). run_inv; frame_with ltac:(side_hd Hd).
Qed.

Lemma clean_builtin_providers_frame hc cfg cfg' p :
  clean_builtin_providers hc cfg = Ok cfg' -> diverge p ["models"] = true ->
  get_path cfg' p = get_path cfg p.
Proof.
  unfold clean_builtin_providers. intros H Hd.
  apply bind_inv in H as [c [E H]].
  rewrite <- (clean_builtin_frame _ _ _ _ _ E Hd).
  run_inv; frame_with ltac:(side_hd Hd).
Qed.

Lemma primary_model_selection_frame env cfg cfg' p :
  primary_model_selection env cfg = Ok cfg' -> diverge p ["agents"] = true ->
  get_path cfg' p = get_path cfg p.
Proof.
  unfold primary_model_selection. intros H Hd.
  run_inv; frame_with ltac:(side_hd Hd).
Qed.

Lemma deepgram_frame env cfg cfg' p :
  deepgram env cfg = Ok cfg' -> diverge p ["tools"] = true ->
  get_path cfg' p = get_path cfg p.
Proof.
  unfold deepgram. intros H Hd. run_inv; frame_with ltac:(side_hd Hd).
Qed.

Lemma browser_tool_frame env cfg cfg' p :
  browser_tool env cfg = Ok cfg' -> diverge p ["browser"] = true ->
  get_path cfg' p = get_path cfg p.
Proof.
  unfold browser_tool. intros H Hd. run_inv; frame_with ltac:(side_hd Hd).
Qed.

Lemma hooks_frame env cfg cfg' p :
  hooks env cfg = Ok cfg' -> diverge p ["hooks"] = true ->
  get_path cfg' p = get_path cfg p.
Proof.
  unfold hooks. intros H Hd. run_inv; frame_with ltac:(side_hd Hd).
Qed.

(* ------------------------------------------------------------------ *)
(** ** Primary model selection *)

Lemma primary_of_path cfg :
  primary_of cfg =
  match get_path cfg ["agents"; "defaults"; "model"; "primary"] with
  | Some v => v
  | None => JNull
  end.
Proof. unfold primary_of, get_nested. simpl split. apply get_keys_null. Qed.

Lemma subscript_get_path : forall q cfg v,
  get_path cfg q = Some v -> subscript cfg q = Ok v.
Proof.
  induction q as [|k q IH]; intros cfg v H; simpl in *.
  - now injection H as <-.
  - destruct cfg; try discriminate. destruct (dict_get d k) eqn:E; try discriminate.
    simpl. rewrite E. simpl. auto.
Qed.

Lemma lookup_get_path cfg q k m :
  get_path cfg q = Some (JDict m) ->
  lookup cfg q k = Ok (match dict_get m k with Some v => v | None => JNull end).
Proof.
  intros H. unfold lookup. rewrite (subscript_get_path _ _ _ H). simpl.
  now destruct (dict_get m k).
Qed.

Lemma update_at_ok : forall q cfg node f node',
  get_path cfg q = Some node -> f node = Ok node' ->
  exists cfg', update_at cfg q f = Ok cfg'.
Proof.
  induction q as [|k q IH]; intros cfg node f node' H Hf; simpl in *.
  - injection H as <-. eauto.
  - destruct cfg; try discriminate.
    destruct (dict_get d k) as [child|] eqn:E; try discriminate. simpl.
    rewrite E. simpl.
    destruct (IH _ _ _ _ H Hf) as [c' Hc]. rewrite Hc. simpl. eauto.
Qed.

Lemma assign_ok cfg q k v m :
  get_path cfg q = Some (JDict m) -> exists cfg', assign cfg q k v = Ok cfg'.
Proof. intros H. eapply update_at_ok; eauto. reflexivity. Qed.

Lemma ensure_mapping cfg q cfg' :
  ensure cfg q = Ok cfg' -> q <> [] -> exists d, get_path cfg' q = Some (JDict d).
Proof.
  intros H Hq. eapply ensure_dict; eauto.
  destruct q; [congruence|]. destruct cfg; try discriminate. reflexivity.
Qed.

Lemma agents_defaults_model env cfg cfg' :
  agents_defaults env cfg = Ok cfg' ->
  (exists m, get_path cfg' ["agents"; "defaults"; "model"] = Some (JDict m)) /\
  get_path cfg' ["agents"; "defaults"; "model"; "primary"]
    = get_path cfg ["agents"; "defaults"; "model"; "primary"].
Proof.
  unfold agents_defaults. intros H. split.
  - apply bind_inv in H as [c1 [_ H]]. apply bind_inv in H as [c2 [_ H]].
    eapply ensure_mapping; eauto. discriminate.
  - run_inv; frame_with ltac:(reflexivity).
Qed.

(** When primary model selection starts, the model node is a mapping and
    the primary entry is the one of the loaded document. *)
Lemma provider_sections_model env custom persisted loaded hc cfg :
  load_config custom persisted = Ok (loaded, hc) ->
  provider_sections env custom persisted = Ok cfg ->
  (exists m, get_path cfg ["agents"; "defaults"; "model"] = Some (JDict m)) /\
  primary_of cfg = primary_of loaded.
Proof.
  unfold provider_sections. intros HL H. rewrite HL in H. cbn [bind] in H.
  apply bind_inv in H as [c1 [E1 H]]. apply bind_inv in H as [c2 [E2 H]].
  apply bind_inv in H as [c3 [E3 H]]. apply bind_inv in H as [c4 [E4 H]].
  apply bind_inv in H as [c5 [E5 H]].
  destruct (agents_defaults_model _ _ _ E2) as [[m Hm] Hp].
  assert (Hfr : forall p, diverge p ["models"] = true ->
                          get_path cfg p = get_path c2 p).
  { intros p Hd.
    rewrite (clean_builtin_providers_frame _ _ _ _ H Hd).
    rewrite (ollama_frame _ _ _ _ _ E5 Hd).
    rewrite (amazon_bedrock_frame _ _ _ _ _ E4 Hd).
    apply (custom_providers_frame _ _ _ _ _ _ E3 Hd). }
  split.
  - exists m. rewrite Hfr by reflexivity. exact Hm.
  - rewrite !primary_of_path, Hfr by reflexivity. rewrite Hp.
    now rewrite (gateway_config_frame _ _ _ _ E1) by reflexivity.
Qed.



Lemma environ_item_getenv env k :
  env_true env k = true -> environ_item env k = Ok (getenv env k "").
Proof.
  unfold env_true, environ_item, getenv.
  destruct (environ_get env k); auto. discriminate.
Qed.

(** What section 8 does to a document whose model node is a mapping. *)
Lemma primary_model_selection_spec env cfg m :
  get_path cfg ["agents"; "defaults"; "model"] = Some (JDict m) ->
  exists cfg',
    primary_model_selection env cfg = Ok cfg' /\
    primary_of cfg' =
      if env_true env "OPENCLAW_PRIMARY_MODEL"
      then JStr (getenv env "OPENCLAW_PRIMARY_MODEL" "")
      else if truthy (primary_of cfg) then primary_of cfg
      else match first_signal (resolved_env env) PRIMARY_MODEL_PRIORITY with
           | Some model => JStr model
           | None => primary_of cfg
           end.
Proof.
  intros Hm. unfold primary_model_selection.
  assert (Hcur : primary_of cfg =
                 match dict_get m "primary" with Some v => v | None => JNull end).
  { rewrite primary_of_path.
    change ["agents"; "defaults"; "model"; "primary"]
      with (["agents"; "defaults"; "model"] ++ ["primary"])%list.
    rewrite get_path_app, Hm. simpl. now destruct (dict_get m "primary"). }
  assert (Hset : forall v cfg', assign cfg ["agents"; "defaults"; "model"] "primary" v = Ok cfg' ->
                                primary_of cfg' = v).
  { intros v cfg' Ha. rewrite primary_of_path.
    apply assign_get in Ha. simpl app in Ha. now rewrite Ha. }
  destruct (env_true env "OPENCLAW_PRIMARY_MODEL") eqn:Eo.
  - rewrite (environ_item_getenv _ _ Eo). cbn [bind].
    destruct (assign_ok cfg ["agents"; "defaults"; "model"] "primary"
                        (JStr (getenv env "OPENCLAW_PRIMARY_MODEL" "")) m Hm)
      as [cfg' Ha].
    exists cfg'. split; auto.
  - rewrite (lookup_get_path _ _ _ _ Hm). cbn [bind]. rewrite <- Hcur.
    destruct (truthy (primary_of cfg)); [eauto|].
    destruct (first_signal (resolved_env env) PRIMARY_MODEL_PRIORITY) as [model|];
      [|eauto].
    destruct (assign_ok cfg ["agents"; "defaults"; "model"] "primary"
                        (JStr model) m Hm) as [cfg' Ha].
    exists cfg'. split; auto.
Qed.



(* ------------------------------------------------------------------ *)
(** ** The validator is the only exit *)

Lemma no_exit_ok {A} (a : A) : no_exit (Ok a).
Proof. intros code msg H. discriminate H. Qed.

Lemma no_exit_bind {A B} (m : result A) (f : A -> result B) :
  no_exit m -> (forall a, no_exit (f a)) -> no_exit (bind m f).
Proof.
  intros Hm Hf. destruct m as [a|e]; simpl; auto.
  intros code msg H. injection H as ->. now apply (Hm code msg).
Qed.

Create HintDb no_exit.

Ltac no_exit_step :=
  first
    [ solve [unfold no_exit; intros; discriminate]
    | solve [auto with no_exit]
    | apply no_exit_bind; [|intros ?]
    | match goal with
      | |- no_exit (if ?b then _ else _) => destruct b
      | |- no_exit (match ?x with _ => _ end) => destruct x
      | |- no_exit (let '(_, _) := ?x in _) => destruct x
      end ].

Ltac no_exit_tac := repeat no_exit_step.

Lemma no_exit_getitem obj k : no_exit (getitem obj k).
Proof. unfold getitem. no_exit_tac. Qed.
Lemma no_exit_setitem obj k v : no_exit (setitem obj k v).
Proof. unfold setitem. no_exit_tac. Qed.
Lemma no_exit_py_get obj k v : no_exit (py_get obj k v).
Proof. unfold py_get. no_exit_tac. Qed.
Lemma no_exit_delitem obj k : no_exit (delitem obj k).
Proof. unfold delitem. no_exit_tac. Qed.
Lemma no_exit_environ_item env k : no_exit (environ_item env k).
Proof. unfold environ_item. no_exit_tac. Qed.
#[local] Hint Resolve no_exit_getitem no_exit_setitem no_exit_py_get
  no_exit_delitem no_exit_environ_item : no_exit.

Lemma no_exit_subscript : forall q obj, no_exit (subscript obj q).
Proof. induction q; intros obj; simpl; no_exit_tac. Qed.

Lemma no_exit_update_at : forall q obj f,
  (forall node, no_exit (f node)) -> no_exit (update_at obj q f).
Proof. induction q; intros obj f Hf; simpl; no_exit_tac. Qed.

Lemma no_exit_ensure : forall q obj, no_exit (ensure obj q).
Proof. induction q; intros obj; simpl; no_exit_tac. Qed.

Lemma no_exit_set_keys : forall rest obj k v, no_exit (set_keys obj k rest v).
Proof.
  induction rest; intros obj k v; simpl; unfold setdefault; no_exit_tac.
Qed.
#[local] Hint Resolve no_exit_subscript no_exit_update_at no_exit_ensure
  no_exit_set_keys : no_exit.

Lemma no_exit_set_nested obj dotpath v : no_exit (set_nested obj dotpath v).
Proof. unfold set_nested. no_exit_tac. Qed.

Lemma no_exit_assign cfg q k v : no_exit (assign cfg q k v).
Proof. unfold assign. no_exit_tac. Qed.

Lemma no_exit_discard cfg q k : no_exit (discard cfg q k).
Proof.
  unfold discard. apply no_exit_update_at. intros node.
  unfold pop_item. no_exit_tac.
Qed.

Lemma no_exit_lookup cfg q k : no_exit (lookup cfg q k).
Proof. unfold lookup. no_exit_tac. Qed.

Lemma no_exit_parse_value raw hint : no_exit (parse_value raw hint).
Proof. unfold parse_value. no_exit_tac. Qed.
#[local] Hint Resolve no_exit_set_nested no_exit_assign no_exit_discard
  no_exit_lookup no_exit_parse_value : no_exit.

Lemma no_exit_apply_fields env fields : forall obj,
  no_exit (apply_fields env obj fields).
Proof.
  induction fields as [|[[ev path] hint] rest IH]; intros obj; simpl;
    no_exit_tac.
Qed.

Lemma no_exit_del_provider cfg name : no_exit (del_provider cfg name).
Proof. unfold del_provider. no_exit_tac. Qed.
#[local] Hint Resolve no_exit_apply_fields no_exit_del_provider : no_exit.

Lemma no_exit_remove_provider cfg hc name : no_exit (remove_provider cfg hc name).
Proof. unfold remove_provider. no_exit_tac. Qed.
#[local] Hint Resolve no_exit_remove_provider : no_exit.

Lemma no_exit_deep_merge : forall source target, no_exit (deep_merge target source).
Proof.
  induction source as [ | | | | | |d IHd] using json_nested_ind; intros target;
    try (unfold no_exit; intros; discriminate).
  rewrite deep_merge_items. revert target.
  induction IHd as [|[key val] rest Hval _ IH]; intros target; simpl.
  - apply no_exit_ok.
  - simpl in Hval. apply no_exit_bind; [|apply IH].
    destruct val; auto with no_exit.
    apply no_exit_bind; auto with no_exit.
    intros tv. destruct tv; auto with no_exit.
    apply no_exit_bind; auto with no_exit.
Qed.
#[local] Hint Resolve no_exit_deep_merge : no_exit.

Lemma no_exit_load_config custom persisted : no_exit (load_config custom persisted).
Proof. unfold load_config. no_exit_tac. Qed.

Lemma no_exit_gateway_config env cfg : no_exit (gateway_config env cfg).
Proof. unfold gateway_config. no_exit_tac. Qed.

Lemma no_exit_agents_defaults env cfg : no_exit (agents_defaults env cfg).
Proof. unfold agents_defaults. no_exit_tac. Qed.

Lemma no_exit_custom_provider env hc cfg prov :
  no_exit (custom_provider env hc cfg prov).
Proof. unfold custom_provider. no_exit_tac. Qed.
#[local] Hint Resolve no_exit_custom_provider : no_exit.

Lemma no_exit_custom_providers env hc provs : forall cfg,
  no_exit (custom_providers env hc cfg provs).
Proof. induction provs; intros cfg; simpl; no_exit_tac. Qed.

Lemma no_exit_amazon_bedrock env hc cfg : no_exit (amazon_bedrock env hc cfg).
Proof. unfold amazon_bedrock. no_exit_tac. Qed.

Lemma no_exit_ollama env hc cfg : no_exit (ollama env hc cfg).
Proof. unfold ollama. no_exit_tac. Qed.

Lemma no_exit_clean_builtin hc builtins : forall cfg,
  no_exit (clean_builtin hc cfg builtins).
Proof.
  induction builtins as [|[[a b] c] rest IH]; intros cfg; simpl; no_exit_tac.
Qed.
#[local] Hint Resolve no_exit_clean_builtin : no_exit.

Lemma no_exit_clean_builtin_providers hc cfg :
  no_exit (clean_builtin_providers hc cfg).
Proof. unfold clean_builtin_providers. no_exit_tac. Qed.

Lemma no_exit_primary_model_selection env cfg :
  no_exit (primary_model_selection env cfg).
Proof. unfold primary_model_selection. no_exit_tac. Qed.

Lemma no_exit_deepgram env cfg : no_exit (deepgram env cfg).
Proof. unfold deepgram. no_exit_tac. Qed.

Lemma no_exit_set_token_fields env pairs : forall obj,
  no_exit (set_token_fields env obj pairs).
Proof. induction pairs as [|[g tf] rest IH]; intros obj; simpl; no_exit_tac. Qed.
#[local] Hint Resolve no_exit_set_token_fields : no_exit.

Lemma no_exit_set_tokens env ch obj : no_exit (set_tokens env ch obj).
Proof. unfold set_tokens. no_exit_tac. Qed.
#[local] Hint Resolve no_exit_set_tokens : no_exit.

Lemma no_exit_configure_channel env cfg ch : no_exit (configure_channel env cfg ch).
Proof.
  unfold configure_channel, setdefault. no_exit_tac.
Qed.
#[local] Hint Resolve no_exit_configure_channel : no_exit.

Lemma no_exit_configure_channels env chs : forall cfg,
  no_exit (configure_channels env cfg chs).
Proof. induction chs; intros cfg; simpl; no_exit_tac. Qed.
#[local] Hint Resolve no_exit_configure_channels : no_exit.

Lemma no_exit_channels env cfg : no_exit (channels env cfg).
Proof. unfold channels. no_exit_tac. Qed.

Lemma no_exit_browser_tool env cfg : no_exit (browser_tool env cfg).
Proof.
  unfold browser_tool. no_exit_tac.
Qed.

Lemma no_exit_hooks env cfg : no_exit (hooks env cfg).
Proof.
  unfold hooks. no_exit_tac.
Qed.
#[local] Hint Resolve no_exit_load_config no_exit_gateway_config
  no_exit_agents_defaults no_exit_custom_providers no_exit_amazon_bedrock
  no_exit_ollama no_exit_clean_builtin_providers
  no_exit_primary_model_selection no_exit_deepgram no_exit_channels
  no_exit_browser_tool no_exit_hooks : no_exit.

Lemma no_exit_provider_sections env custom persisted :
  no_exit (provider_sections env custom persisted).
Proof. unfold provider_sections. no_exit_tac. Qed.
#[local] Hint Resolve no_exit_provider_sections : no_exit.

(* ------------------------------------------------------------------ *)
(** ** The order of [sorted] *)

Lemma ascii_compare_refl c : Ascii.compare c c = Eq.
Proof. unfold Ascii.compare. apply N.compare_refl. Qed.

Lemma ascii_compare_lt_trans a b c :
  Ascii.compare a b = Lt -> Ascii.compare b c = Lt -> Ascii.compare a c = Lt.
Proof.
  unfold Ascii.compare. rewrite !N.compare_lt_iff. apply N.lt_trans.
Qed.

Lemma compare_refl s : String.compare s s = Eq.
Proof. induction s; simpl; auto. now rewrite ascii_compare_refl. Qed.

Lemma compare_lt_trans : forall s1 s2 s3,
  String.compare s1 s2 = Lt -> String.compare s2 s3 = Lt ->
  String.compare s1 s3 = Lt.
Proof.
  induction s1 as [|c1 s1 IH]; intros [|c2 s2] [|c3 s3]; simpl;
    try discriminate; auto.
  destruct (Ascii.compare c1 c2) eqn:E12; try discriminate;
    destruct (Ascii.compare c2 c3) eqn:E23; try discriminate; intros H1 H2.
  - apply Ascii.compare_eq_iff in E12, E23. subst.
    rewrite ascii_compare_refl. eauto.
  - apply Ascii.compare_eq_iff in E12. subst. now rewrite E23.
  - apply Ascii.compare_eq_iff in E23. subst. now rewrite E12.
  - now rewrite (ascii_compare_lt_trans _ _ _ E12 E23).
Qed.

Lemma compare_gt_lt s1 s2 : String.compare s1 s2 = Gt <-> String.compare s2 s1 = Lt.
Proof.
  rewrite (String.compare_antisym s1 s2).
  destruct (String.compare s2 s1); simpl; split; congruence.
Qed.

Lemma leb_trans s1 s2 s3 :
  String.leb s1 s2 = true -> String.leb s2 s3 = true -> String.leb s1 s3 = true.
Proof.
  unfold String.leb.
  destruct (String.compare s1 s2) eqn:E12; try discriminate;
    destruct (String.compare s2 s3) eqn:E23; try discriminate; intros _ _.
  - apply String.compare_eq_iff in E12, E23. subst. now rewrite compare_refl.
  - apply String.compare_eq_iff in E12. subst. now rewrite E23.
  - apply String.compare_eq_iff in E23. subst. now rewrite E12.
  - now rewrite (compare_lt_trans _ _ _ E12 E23).
Qed.

Lemma item_leb_total a b : item_leb a b = true \/ item_leb b a = true.
Proof.
  unfold item_leb. rewrite (String.compare_antisym (fst a) (fst b)).
  destruct (String.compare (fst b) (fst a)); simpl; auto.
  apply String.leb_total.
Qed.

Lemma item_leb_trans a b c :
  item_leb a b = true -> item_leb b c = true -> item_leb a c = true.
Proof.
  unfold item_leb.
  destruct (String.compare (fst a) (fst b)) eqn:E12; try discriminate;
    destruct (String.compare (fst b) (fst c)) eqn:E23; try discriminate.
  - apply String.compare_eq_iff in E12, E23. rewrite E12, E23, compare_refl.
    apply leb_trans.
  - apply String.compare_eq_iff in E12. rewrite E12, E23. auto.
  - apply String.compare_eq_iff in E23. rewrite <- E23, E12. auto.
  - rewrite (compare_lt_trans _ _ _ E12 E23). auto.
Qed.

Lemma item_leb_antisym a b :
  item_leb a b = true -> item_leb b a = true -> a = b.
Proof.
  unfold item_leb. rewrite (String.compare_antisym (fst b) (fst a)).
  destruct (String.compare (fst a) (fst b)) eqn:E; simpl; try discriminate.
  apply String.compare_eq_iff in E. intros H1 H2.
  destruct a, b; simpl in *. subst. f_equal. now apply String.leb_antisym.
Qed.

Lemma insert_sorted_perm x l : Permutation (x :: l) (insert_sorted x l).
Proof.
  induction l as [|y l IH]; simpl; auto.
  destruct (item_leb x y); auto.
  rewrite perm_swap. now constructor.
Qed.

Lemma sorted_perm l : Permutation l (sorted l).
Proof.
  induction l as [|x l IH]; simpl; auto.
  rewrite <- insert_sorted_perm. now constructor.
Qed.

Lemma sorted_In x l : In x (sorted l) <-> In x l.
Proof.
  split; apply Permutation_in; [symmetry|]; apply sorted_perm.
Qed.

Lemma insert_sorted_sorted x l :
  StronglySorted item_le l -> StronglySorted item_le (insert_sorted x l).
Proof.
  induction l as [|y l IH]; simpl; intros Hs.
  - repeat constructor.
  - inversion Hs as [|? ? Hs' Hall]; subst.
    destruct (item_leb x y) eqn:E.
    + constructor; auto. constructor; auto.
      eapply Forall_impl; [|exact Hall].
      intros z Hz. eapply item_leb_trans; eauto.
    + constructor; auto.
      rewrite Forall_forall. intros z Hz.
      apply (Permutation_in _ (Permutation_sym (insert_sorted_perm x l))) in Hz.
      destruct Hz as [<-|Hz].
      * destruct (item_leb_total x y) as [H|H]; [congruence|exact H].
      * rewrite Forall_forall in Hall. auto.
Qed.

Lemma sorted_sorted l : StronglySorted item_le (sorted l).
Proof.
  induction l; simpl; [constructor|]. now apply insert_sorted_sorted.
Qed.

(** A sorted list is determined by its elements. *)
Lemma sorted_unique : forall l1 l2,
  StronglySorted item_le l1 -> StronglySorted item_le l2 ->
  Permutation l1 l2 -> l1 = l2.
Proof.
  induction l1 as [|a l1 IH]; intros l2 H1 H2 Hp.
  - apply Permutation_nil in Hp. now subst.
  - destruct l2 as [|b l2].
    + symmetry in Hp. apply Permutation_nil in Hp. discriminate.
    + inversion H1 as [|? ? H1' Ha]; inversion H2 as [|? ? H2' Hb]; subst.
      rewrite Forall_forall in Ha, Hb.
      assert (Hab : a = b).
      { assert (Hin1 : In a (b :: l2))
          by (eapply Permutation_in; [exact Hp|now left]).
        assert (Hin2 : In b (a :: l1))
          by (eapply Permutation_in; [symmetry; exact Hp|now left]).
        destruct Hin1 as [->|Hin1]; auto.
        destruct Hin2 as [->|Hin2]; auto.
        apply item_leb_antisym; [apply Ha|apply Hb]; auto. }
      subst b. f_equal. apply IH; auto.
      eapply Permutation_cons_inv; eauto.
Qed.

Lemma sorted_permutation l1 l2 : Permutation l1 l2 -> sorted l1 = sorted l2.
Proof.
  intros Hp. apply sorted_unique; try apply sorted_sorted.
  rewrite <- !sorted_perm. exact Hp.
Qed.

(* ------------------------------------------------------------------ *)
(** ** Channels *)

Lemma configure_channel_spec env cfg ch cfg' :
  configure_channel env cfg ch = Ok cfg' ->
  (gate_open env ch = true ->
   exists obj, get_path cfg' ["channels"; ch_key ch] = Some obj) /\
  (forall k, k <> ch_key ch \/ gate_open env ch = false ->
             get_path cfg' ["channels"; k] = get_path cfg ["channels"; k]) /\
  (forall p, diverge p ["channels"] = true -> get_path cfg' p = get_path cfg p).
Proof.
  unfold configure_channel. intros H.
  destruct (gate_open env ch) eqn:G.
  - apply bind_inv in H as [c1 [E1 H]].
    destruct (update_at_inv _ _ _ _ H) as [node [node' [Hn [Hf Hr]]]].
    assert (Hset : exists obj, setitem node (ch_key ch) obj = Ok node').
    { apply bind_inv in Hf as [o1 [_ Hf]]. apply bind_inv in Hf as [o2 [_ Hf]].
      apply bind_inv in Hf as [o3 [_ Hf]]. apply bind_inv in Hf as [o4 [_ Hf]].
      eauto. }
    destruct Hset as [obj Hset]. repeat split.
    + intros _. exists obj.
      change ["channels"; ch_key ch] with (["channels"] ++ [ch_key ch])%list.
      rewrite Hr. now rewrite (setitem_get _ _ _ _ [] Hset).
    + intros k [Hk|Hk]; [|discriminate].
      transitivity (get_path c1 ["channels"; k]).
      * change ["channels"; k] with (["channels"] ++ [k])%list.
        rewrite Hr, get_path_app, Hn.
        apply (setitem_frame _ _ _ _ _ Hset). simpl.
        apply String.eqb_neq in Hk. now rewrite Hk.
      * apply (ensure_frame _ _ _ _ E1). reflexivity.
    + intros p Hd. rewrite (update_at_frame _ _ _ _ _ H Hd).
      apply (ensure_frame _ _ _ _ E1). now apply diverge_hd_prefix.
  - injection H as <-. split; [discriminate|]. split; auto.
Qed.

Lemma configure_channels_spec env : forall chs cfg cfg',
  NoDup (map ch_key chs) ->
  configure_channels env cfg chs = Ok cfg' ->
  (forall ch, In ch chs ->
     (gate_open env ch = true ->
      exists obj, get_path cfg' ["channels"; ch_key ch] = Some obj) /\
     (gate_open env ch = false ->
      get_path cfg' ["channels"; ch_key ch] = get_path cfg ["channels"; ch_key ch])) /\
  (forall k, ~ In k (map ch_key chs) ->
             get_path cfg' ["channels"; k] = get_path cfg ["channels"; k]) /\
  (forall p, diverge p ["channels"] = true -> get_path cfg' p = get_path cfg p).
Proof.
  induction chs as [|c rest IH]; intros cfg cfg' Hnd H; simpl in H.
  - injection H as <-. split; [|split]; auto. intros ch [].
  - apply bind_inv in H as [c1 [E1 H]].
    simpl in Hnd. inversion Hnd as [|? ? Hfresh Hnd']; subst.
    destruct (configure_channel_spec _ _ _ _ E1) as [Hopen [Hother Hframe]].
    destruct (IH _ _ Hnd' H) as [IHin [IHout IHframe]].
    split; [|split].
    + intros ch [<-|Hin]; split; intros G.
      * rewrite (IHout _ Hfresh). auto.
      * rewrite (IHout _ Hfresh). auto.
      * apply (IHin _ Hin). exact G.
      * destruct (IHin _ Hin) as [_ Hc]. rewrite (Hc G).
        apply Hother. left. intros Heq. apply Hfresh. rewrite <- Heq.
        now apply in_map.
    + intros k Hk. simpl in Hk. rewrite IHout by tauto.
      apply Hother. left. intros ->. tauto.
    + intros p Hd. rewrite (IHframe _ Hd). auto.
Qed.

Lemma channels_spec env cfg cfg' :
  channels env cfg = Ok cfg' ->
  (forall ch, In ch CHANNELS ->
     (gate_open env ch = true ->
      exists obj, get_path cfg' ["channels"; ch_key ch] = Some obj) /\
     (gate_open env ch = false ->
      get_path cfg' ["channels"; ch_key ch] = get_path cfg ["channels"; ch_key ch])) /\
  (forall p, diverge p ["channels"] = true -> get_path cfg' p = get_path cfg p).
Proof.
  unfold channels. intros H. apply bind_inv in H as [c1 [E1 H]].
  apply bind_inv in H as [chs [E2 H]].
  assert (Hnd : NoDup (map ch_key CHANNELS)).
  { simpl. repeat constructor; simpl; intuition discriminate. }
  destruct (configure_channels_spec _ _ _ _ Hnd E1) as [Hin [_ Hframe]].
  assert (Hclean : (forall k, get_path cfg' ["channels"; k] = get_path c1 ["channels"; k]) /\
                   (forall p, diverge p ["channels"] = true ->
                              get_path cfg' p = get_path c1 p)).
  { destruct chs as [ | | | | | |[|kv d]]; try (injection H as <-; auto).
    split.
    - intros k. rewrite (delitem_get _ _ _ _ H).
      destruct c1; try discriminate. simpl in E2. simpl.
      destruct (dict_get d "channels"); [|discriminate].
      injection E2 as ->. reflexivity.
    - intros p Hd. eapply delitem_frame; eauto. }
  destruct Hclean as [Hck Hcf]. split.
  - intros ch Hch. destruct (Hin ch Hch) as [Ho Hc]. split.
    + intros G. rewrite Hck. auto.
    + intros G. rewrite Hck. auto.
  - intros p Hd. rewrite (Hcf _ Hd). auto.
Qed.

(* ------------------------------------------------------------------ *)
(** ** Provider entries *)

Lemma builtin_not_explicit b : In b BUILTIN_IDS -> ~ In b EXPLICIT_KEYS.
Proof.
  intros Hb He. simpl in Hb, He.
  repeat (destruct Hb as [<-|Hb];
          [repeat (destruct He as [He|He]; [discriminate He|]); exact He|]).
  exact Hb.
Qed.

Ltac side_entry Hne :=
  first [ reflexivity
        | simpl; rewrite (proj2 (String.eqb_neq _ _) Hne); reflexivity ].

Lemma custom_provider_entry env hc cfg prov cfg' b :
  custom_provider env hc cfg prov = Ok cfg' -> b <> p_key prov ->
  get_path cfg' ["models"; "providers"; b] = get_path cfg ["models"; "providers"; b].
Proof.
  unfold custom_provider. intros H Hne.
  run_inv; frame_with ltac:(side_entry Hne).
Qed.

Lemma custom_providers_entry env hc provs b : forall cfg cfg',
  custom_providers env hc cfg provs = Ok cfg' ->
  ~ In b (map p_key provs) ->
  get_path cfg' ["models"; "providers"; b] = get_path cfg ["models"; "providers"; b].
Proof.
  induction provs as [|prov rest IH]; intros cfg cfg' H Hn; simpl in H, Hn.
  - now injection H as <-.
  - apply bind_inv in H as [c [E H]].
    rewrite (IH _ _ H) by tauto.
    eapply custom_provider_entry; eauto.
Qed.

Lemma amazon_bedrock_entry env hc cfg cfg' b :
  amazon_bedrock env hc cfg = Ok cfg' -> b <> "amazon-bedrock" ->
  get_path cfg' ["models"; "providers"; b] = get_path cfg ["models"; "providers"; b].
Proof.
  unfold amazon_bedrock. intros H Hne.
  run_inv; frame_with ltac:(side_entry Hne).
Qed.

Lemma ollama_entry env hc cfg cfg' b :
  ollama env hc cfg = Ok cfg' -> b <> "ollama" ->
  get_path cfg' ["models"; "providers"; b] = get_path cfg ["models"; "providers"; b].
Proof.
  unfold ollama. intros H Hne.
  run_inv; frame_with ltac:(side_entry Hne).
Qed.

Lemma del_provider_none cfg name cfg' b :
  del_provider cfg name = Ok cfg' ->
  get_path cfg ["models"; "providers"; b] = None ->
  get_path cfg' ["models"; "providers"; b] = None.
Proof.
  intros H Hb. destruct (String.eqb b name) eqn:E.
  - apply String.eqb_eq in E. subst. eapply del_provider_get; eauto.
  - rewrite (del_provider_frame _ _ _ ["models"; "providers"; b] H); auto.
    simpl. now rewrite E.
Qed.

Lemma clean_builtin_none builtins : forall cfg cfg' b,
  clean_builtin false cfg builtins = Ok cfg' ->
  In b (map snd builtins) \/ get_path cfg ["models"; "providers"; b] = None ->
  get_path cfg' ["models"; "providers"; b] = None.
Proof.
  induction builtins as [|[[env_key label] provider_key] rest IH];
    intros cfg cfg' b H Hb; simpl in H, Hb.
  - injection H as <-. tauto.
  - apply bind_inv in H as [c [E H]].
    apply (IH _ _ _ H). destruct Hb as [[<-|Hb]|Hb]; auto.
    + right. eapply del_provider_get; eauto.
    + right. eapply del_provider_none; eauto.
Qed.

(** Section 7 with no custom config: no built-in identifier is left
    under [models.providers]; with a custom config: nothing changes. *)
Lemma clean_builtin_providers_spec hc cfg cfg' b :
  clean_builtin_providers hc cfg = Ok cfg' ->
  In b BUILTIN_IDS ->
  get_path cfg' ["models"; "providers"; b] =
  if hc then get_path cfg ["models"; "providers"; b] else None.
Proof.
  unfold clean_builtin_providers. intros H Hb.
  apply bind_inv in H as [c [E H]]. destruct hc; simpl in H.
  - injection H as <-. clear Hb. revert cfg c E.
    induction BUILTIN_PROVIDERS as [|[[a l] k] rest IH]; intros cfg c E;
      simpl in E.
    + now injection E as <-.
    + apply (IH _ _ E).
  - unfold BUILTIN_IDS in Hb. apply in_app_or in Hb.
    destruct Hb as [Hb|[<-|[]]].
    + eapply del_provider_none; eauto. eapply clean_builtin_none; eauto.
    + eapply del_provider_get; eauto.
Qed.

(** Sections 1 to 7 and the entries of built-in providers. *)
Lemma provider_sections_builtin env custom persisted loaded hc cfg b :
  load_config custom persisted = Ok (loaded, hc) ->
  provider_sections env custom persisted = Ok cfg ->
  In b BUILTIN_IDS ->
  get_path cfg ["models"; "providers"; b] =
  match custom with
  | Some _ => get_path loaded ["models"; "providers"; b]
  | None => None
  end.
Proof.
  unfold provider_sections. intros HL H Hb. rewrite HL in H. cbn [bind] in H.
  apply bind_inv in H as [c1 [E1 H]]. apply bind_inv in H as [c2 [E2 H]].
  apply bind_inv in H as [c3 [E3 H]]. apply bind_inv in H as [c4 [E4 H]].
  apply bind_inv in H as [c5 [E5 H]].
  pose proof (builtin_not_explicit b Hb) as Hne. unfold EXPLICIT_KEYS in Hne.
  rewrite in_app_iff in Hne.
  rewrite (clean_builtin_providers_spec _ _ _ _ H Hb).
  assert (hc = match custom with Some _ => true | None => false end) as ->.
  { unfold load_config in HL. apply bind_inv in HL as [c [_ HL]].
    now injection HL as _ <-. }
  destruct custom; auto.
  rewrite (ollama_entry _ _ _ _ _ E5) by (intros ->; apply Hne; simpl; auto).
  rewrite (amazon_bedrock_entry _ _ _ _ _ E4) by (intros ->; apply Hne; simpl; auto).
  rewrite (custom_providers_entry _ _ _ _ _ _ E3) by tauto.
  rewrite (agents_defaults_frame _ _ _ _ E2) by reflexivity.
  rewrite (gateway_config_frame _ _ _ _ E1) by reflexivity.
  reflexivity.
Qed.

(* ------------------------------------------------------------------ *)
(** ** A run reads the environment only as a mapping *)

Lemma bind_ext {A B} (m1 m2 : result A) (f1 f2 : A -> result B) :
  m1 = m2 -> (forall a, f1 a = f2 a) -> bind m1 f1 = bind m2 f2.
Proof. intros -> H. destruct m2; simpl; auto. Qed.

Lemma update_at_ext : forall q obj f g,
  (forall node, f node = g node) -> update_at obj q f = update_at obj q g.
Proof.
  induction q as [|k q IH]; intros obj f g H; simpl; auto.
  apply bind_ext; auto. intros child.
  apply bind_ext; auto.
Qed.

Section SameMapping.

Variables e1 e2 : environ.
Hypothesis Hsame : forall k, environ_get e1 k = environ_get e2 k.

Lemma same_getenv k d : getenv e1 k d = getenv e2 k d.
Proof. unfold getenv. now rewrite Hsame. Qed.

Lemma same_env_true k : env_true e1 k = env_true e2 k.
Proof. unfold env_true. now rewrite same_getenv. Qed.

Lemma same_environ_item k : environ_item e1 k = environ_item e2 k.
Proof. unfold environ_item. now rewrite Hsame. Qed.

Lemma same_env_or k d : env_or e1 k d = env_or e2 k d.
Proof. unfold env_or. now rewrite same_env_true, same_getenv. Qed.

Lemma same_ollama_url : ollama_url e1 = ollama_url e2.
Proof. unfold ollama_url. now rewrite same_getenv. Qed.

Lemma same_workspace : WORKSPACE_DIR e1 = WORKSPACE_DIR e2.
Proof. unfold WORKSPACE_DIR. now rewrite same_getenv. Qed.

Lemma same_opencode_key : opencode_key e1 = opencode_key e2.
Proof. unfold opencode_key. now rewrite same_env_true, !Hsame. Qed.

Lemma same_first_signal priority :
  first_signal (resolved_env e1) priority = first_signal (resolved_env e2) priority.
Proof.
  apply first_signal_ext. intros k. rewrite !env_true_resolved.
  unfold resolved_signal.
  now rewrite same_ollama_url, same_opencode_key, same_env_true.
Qed.

Lemma same_has_provider : has_provider e1 = has_provider e2.
Proof.
  unfold has_provider.
  rewrite same_opencode_key, same_ollama_url, !same_env_true.
  rewrite (existsb_pointwise _ (fun b => env_true e2 (fst (fst b))))
    by (intros; apply same_env_true).
  rewrite (existsb_pointwise (fun p => env_true e1 (p_env p))
                             (fun p => env_true e2 (p_env p)))
    by (intros; apply same_env_true).
  reflexivity.
Qed.

Lemma same_gate_open ch : gate_open e1 ch = gate_open e2 ch.
Proof.
  unfold gate_open. destruct (ch_gate ch).
  - now rewrite same_getenv, same_env_true.
  - apply forallb_pointwise. apply same_env_true.
Qed.

Create Rewrite HintDb same_env.
#[local] Hint Rewrite same_getenv same_env_true same_environ_item same_env_or
  same_ollama_url same_workspace same_opencode_key same_first_signal
  same_has_provider same_gate_open Hsame : same_env.

Ltac same_run :=
  try autorewrite with same_env;
  repeat first
    [ reflexivity
    | apply bind_ext; [|intros ?]
    | apply update_at_ext; intros ?
    | match goal with
      | |- (if ?b then _ else _) = (if ?b then _ else _) => destruct b
      | |- match ?x with _ => _ end = match ?x with _ => _ end => destruct x
      end
    | progress autorewrite with same_env ].

Lemma same_apply_fields fields : forall obj,
  apply_fields e1 obj fields = apply_fields e2 obj fields.
Proof.
  induction fields as [|[[ev path] hint] rest IH]; intros obj; simpl; auto.
  rewrite Hsame. apply bind_ext; auto.
Qed.

Lemma same_set_token_fields pairs : forall obj,
  set_token_fields e1 obj pairs = set_token_fields e2 obj pairs.
Proof.
  induction pairs as [|[g tf] rest IH]; intros obj; simpl; auto.
  rewrite same_environ_item. apply bind_ext; auto.
  intros v. apply bind_ext; auto.
Qed.

Lemma same_set_tokens ch obj : set_tokens e1 ch obj = set_tokens e2 ch obj.
Proof.
  unfold set_tokens.
  destruct (ch_tokenField ch) as [[tf|[|tf tfs]]|]; destruct (ch_gate ch); auto.
  - now rewrite same_environ_item.
  - apply same_set_token_fields.
Qed.

Lemma same_configure_channel cfg ch :
  configure_channel e1 cfg ch = configure_channel e2 cfg ch.
Proof.
  unfold configure_channel. rewrite same_gate_open.
  destruct (gate_open e2 ch); auto.
  apply bind_ext; auto. intros c. apply update_at_ext. intros node.
  apply bind_ext; auto. intros o1. apply bind_ext; auto. intros o2.
  rewrite same_set_tokens. apply bind_ext; auto. intros o3.
  rewrite same_apply_fields. reflexivity.
Qed.

Lemma same_configure_channels chs : forall cfg,
  configure_channels e1 cfg chs = configure_channels e2 cfg chs.
Proof.
  induction chs as [|ch rest IH]; intros cfg; simpl; auto.
  rewrite same_configure_channel. apply bind_ext; auto.
Qed.

Lemma same_channels cfg : channels e1 cfg = channels e2 cfg.
Proof. unfold channels. now rewrite same_configure_channels. Qed.

Lemma same_gateway_config cfg : gateway_config e1 cfg = gateway_config e2 cfg.
Proof. unfold gateway_config. same_run. Qed.

Lemma same_agents_defaults cfg : agents_defaults e1 cfg = agents_defaults e2 cfg.
Proof. unfold agents_defaults. same_run. Qed.

Lemma same_custom_provider hc cfg prov :
  custom_provider e1 hc cfg prov = custom_provider e2 hc cfg prov.
Proof. unfold custom_provider. destruct (p_base prov); same_run. Qed.

Lemma same_custom_providers hc provs : forall cfg,
  custom_providers e1 hc cfg provs = custom_providers e2 hc cfg provs.
Proof.
  induction provs as [|prov rest IH]; intros cfg; simpl; auto.
  rewrite same_custom_provider. apply bind_ext; auto.
Qed.

Lemma same_amazon_bedrock hc cfg : amazon_bedrock e1 hc cfg = amazon_bedrock e2 hc cfg.
Proof. unfold amazon_bedrock. same_run. Qed.

Lemma same_ollama hc cfg : ollama e1 hc cfg = ollama e2 hc cfg.
Proof. unfold ollama. same_run. Qed.

Lemma same_primary_model_selection cfg :
  primary_model_selection e1 cfg = primary_model_selection e2 cfg.
Proof. unfold primary_model_selection. same_run. Qed.

Lemma same_deepgram cfg : deepgram e1 cfg = deepgram e2 cfg.
Proof. unfold deepgram. same_run. Qed.

Lemma same_browser_tool cfg : browser_tool e1 cfg = browser_tool e2 cfg.
Proof.
  unfold browser_tool. rewrite same_env_true.
  destruct (env_true e2 "BROWSER_CDP_URL"); auto.
  apply bind_ext; auto. intros c. apply update_at_ext. intros b.
  apply same_apply_fields.
Qed.

Lemma same_hooks cfg : hooks e1 cfg = hooks e2 cfg.
Proof.
  unfold hooks. rewrite same_getenv.
  destruct (is_true_or_1 (getenv e2 "HOOKS_ENABLED" "")); auto.
  apply bind_ext; auto. intros c. apply bind_ext; auto. intros c'.
  apply update_at_ext. intros h. apply same_apply_fields.
Qed.

Lemma same_provider_sections custom persisted :
  provider_sections e1 custom persisted = provider_sections e2 custom persisted.
Proof.
  unfold provider_sections. apply bind_ext; auto. intros [config hc].
  rewrite same_gateway_config. apply bind_ext; auto. intros c1.
  rewrite same_agents_defaults. apply bind_ext; auto. intros c2.
  rewrite same_custom_providers. apply bind_ext; auto. intros c3.
  rewrite same_amazon_bedrock. apply bind_ext; auto. intros c4.
  rewrite same_ollama. reflexivity.
Qed.

Lemma same_validate_provider cfg : validate_provider e1 cfg = validate_provider e2 cfg.
Proof. unfold validate_provider. now rewrite same_has_provider. Qed.

End SameMapping.

(** Two enumerations of one environment give every variable the same
    value. *)
Lemma permutation_environ_get (env1 env2 : environ) :
  NoDup (keys env1) -> Permutation env1 env2 ->
  forall k, environ_get env1 k = environ_get env2 k.
Proof.
  intros Hnd Hp k. unfold environ_get. revert Hnd.
  induction Hp as [|[k0 v0] l1 l2 Hp IH|[k1 v1] [k2 v2] l|l1 l2 l3 Hp1 IH1 Hp2 IH2];
    intros Hnd; simpl in *.
  - reflexivity.
  - inversion Hnd; subst. now rewrite IH.
  - inversion Hnd as [|? ? Hn1 Hnd']; subst.
    destruct (String.eqb k2 k) eqn:E2; destruct (String.eqb k1 k) eqn:E1; auto.
    apply String.eqb_eq in E1, E2. subst. elim Hn1. now left.
  - rewrite IH1 by auto. apply IH2.
    eapply Permutation_NoDup; [|exact Hnd]. now apply Permutation_map.
Qed.

Section Properties.

Variable py_float : string -> option float.
Variable json_loads : string -> option json.
Variable py_repr : json -> string.

Local Abbreviation auto_type := (_auto_type py_float json_loads).
Local Abbreviation convention_loop' := (convention_loop py_float json_loads).
Local Abbreviation overrides := (apply_convention_overrides py_float json_loads).
Local Abbreviation features := (feature_sections py_float json_loads).
Local Abbreviation resolved := (resolved_config py_float json_loads).
Local Abbreviation build := (build_config py_float json_loads).
Local Abbreviation run_main := (main py_float json_loads py_repr).

Lemma no_exit_convention_loop items : forall cfg,
  no_exit (convention_loop' cfg items).
Proof.
  induction items as [|[key raw] rest IH]; intros cfg; simpl; no_exit_tac.
Qed.

Lemma no_exit_resolved env custom persisted :
  no_exit (resolved env custom persisted).
Proof.
  unfold resolved_config, feature_sections, apply_convention_overrides.
  pose proof no_exit_convention_loop. no_exit_tac.
Qed.

Lemma no_exit_hooks_snippet env cfg : no_exit (hooks_snippet py_repr env cfg).
Proof. unfold hooks_snippet. no_exit_tac. Qed.

Lemma has_provider_false env :
  has_provider env = false <->
  (forall b, In b BUILTIN_PROVIDERS -> env_true env (fst (fst b)) = false) /\
  env_true env "OPENCODE_API_KEY" = false /\
  env_true env "OPENCODE_ZEN_API_KEY" = false /\
  env_true env "AWS_ACCESS_KEY_ID" && env_true env "AWS_SECRET_ACCESS_KEY" = false /\
  nonempty (rstrip_slash (getenv env "OLLAMA_BASE_URL" "")) = false /\
  (forall p, In p CUSTOM_PROVIDERS -> env_true env (p_env p) = false).
Proof.
  unfold has_provider. rewrite opencode_key_truthy. fold (ollama_url env).
  rewrite !orb_false_iff.
  assert (Hex : forall A (f : A -> bool) l,
             existsb f l = false <-> forall x, In x l -> f x = false).
  { intros A f l. split.
    - intros H x Hx. destruct (f x) eqn:E; auto.
      rewrite <- H. symmetry. apply existsb_exists. eauto.
    - intros H. destruct (existsb f l) eqn:E; auto.
      apply existsb_exists in E as [x [Hx Hf]]. rewrite H in Hf; auto. }
  rewrite !Hex. unfold ollama_url. tauto.
Qed.

Lemma exit_only_from_validator env custom persisted e :
  build env custom persisted = Raise e ->
  (exists code msg, e = SystemExit code msg) ->
  e = SystemExit 1 NO_PROVIDER_MESSAGE /\
  has_provider env = false /\
  exists cfg, resolved env custom persisted = Ok cfg.
Proof.
  unfold build_config. intros H [code [msg ->]].
  destruct (resolved env custom persisted) as [cfg|e] eqn:E; simpl in H.
  - unfold validate_provider in H.
    destruct (has_provider env); simpl in H; try discriminate.
    injection H as <- <-. eauto.
  - injection H as ->. now elim (no_exit_resolved env custom persisted code msg).
Qed.

Lemma only_ollama_config url :
  nonempty (rstrip_slash url) = true ->
  exists cfg,
    build [("OLLAMA_BASE_URL", url)] None None = Ok cfg /\
    isinstance_dict cfg = true /\
    get_path cfg ["hooks"] = None /\
    get_path cfg ["models"; "providers"; "ollama"; "baseUrl"] =
      Some (JStr (if endswith (rstrip_slash url) "/v1" then rstrip_slash url
                  else rstrip_slash url ++ "/v1")).
Proof.
  intros H.
  unfold build_config, resolved_config, provider_sections, feature_sections,
    validate_provider, has_provider, ollama, apply_convention_overrides,
    primary_model_selection.
  cbn -[rstrip_slash endswith nonempty String.append].
  unfold ollama_url, getenv. cbn -[rstrip_slash endswith nonempty String.append].
  rewrite H. cbn -[rstrip_slash endswith nonempty String.append].
  unfold resolved_env, ollama_url, getenv, first_signal, env_true, getenv.
  cbn -[rstrip_slash endswith nonempty String.append].
  unfold nonempty in H. rewrite H.
  cbn -[rstrip_slash endswith nonempty String.append].
  eexists. split; [reflexivity|]. repeat split; reflexivity.
Qed.

Lemma diagnostic_names_vars :
  forall k, In k DIAGNOSTIC_VARS ->
            exists line, In line NO_PROVIDER_MESSAGE /\ contains line k = true.
Proof.
  assert (H : forallb (fun k => existsb (fun line => contains line k)
                                        NO_PROVIDER_MESSAGE)
                      DIAGNOSTIC_VARS = true) by (vm_compute; reflexivity).
  intros k Hk. rewrite forallb_forall in H. specialize (H k Hk).
  apply existsb_exists in H. exact H.
Qed.

(** The diagnostic does not name [OPENCODE_ZEN_API_KEY], the second
    variable the OpenCode signal is read from. *)
Lemma diagnostic_omits_opencode_zen :
  forall line, In line NO_PROVIDER_MESSAGE ->
               contains line "OPENCODE_ZEN_API_KEY" = false.
Proof.
  assert (H : forallb (fun line => negb (contains line "OPENCODE_ZEN_API_KEY"))
                      NO_PROVIDER_MESSAGE = true) by (vm_compute; reflexivity).
  intros line Hl. rewrite forallb_forall in H. specialize (H line Hl).
  now apply negb_true_iff in H.
Qed.

(** C8 (amended).  A run ends in [sys.exit] only at the validator, with
    code 1 and the diagnostic [NO_PROVIDER_MESSAGE], and it does so
    exactly when sections 1 to 13 returned and no credential signal is
    present: no built-in provider variable, neither OpenCode variable,
    not both AWS variables, no custom provider variable is set to a
    non-empty string and [OLLAMA_BASE_URL] is empty once its trailing
    slashes are stripped.  Nothing is written then.  The diagnostic names
    every variable of [DIAGNOSTIC_VARS].  A run whose environment holds
    [OLLAMA_BASE_URL] alone, with a value that is not only slashes, and
    that finds no document to load, ends with exit code 0. *)
Theorem validator_exit hash_password env custom persisted :
  (raised (run_main hash_password env custom persisted)
     = Some (SystemExit 1 NO_PROVIDER_MESSAGE)
   <-> has_provider env = false /\
       exists cfg, resolved env custom persisted = Ok cfg) /\
  (forall code msg,
      raised (run_main hash_password env custom persisted)
        = Some (SystemExit code msg) ->
      code = 1 /\ msg = NO_PROVIDER_MESSAGE /\
      openclaw_json (run_main hash_password env custom persisted) = None) /\
  (has_provider env = false <->
   (forall b, In b BUILTIN_PROVIDERS -> env_true env (fst (fst b)) = false) /\
   env_true env "OPENCODE_API_KEY" = false /\
   env_true env "OPENCODE_ZEN_API_KEY" = false /\
   env_true env "AWS_ACCESS_KEY_ID" && env_true env "AWS_SECRET_ACCESS_KEY" = false /\
   nonempty (rstrip_slash (getenv env "OLLAMA_BASE_URL" "")) = false /\
   (forall p, In p CUSTOM_PROVIDERS -> env_true env (p_env p) = false)) /\
  (forall k, In k DIAGNOSTIC_VARS ->
             exists line, In line NO_PROVIDER_MESSAGE /\ contains line k = true) /\
  (forall url,
      nonempty (rstrip_slash url) = true ->
      exit_code (run_main hash_password [("OLLAMA_BASE_URL", url)] None None) = 0).
Proof.
  assert (Hexit : forall code msg,
             raised (run_main hash_password env custom persisted)
               = Some (SystemExit code msg) ->
             build env custom persisted = Raise (SystemExit code msg)).
  { intros code msg H. unfold main in H.
    destruct (build env custom persisted) as [cfg|e] eqn:E; simpl in H.
    - destruct (hooks_snippet py_repr env cfg) as [h|e] eqn:Eh; simpl in H;
        try discriminate.
      injection H as ->. now elim (no_exit_hooks_snippet env cfg code msg).
    - now injection H as ->. }
  split; [|split; [|split; [|split]]].
  - split.
    + intros H. apply Hexit in H.
      destruct (exit_only_from_validator _ _ _ _ H) as [_ [Hp Hc]]; eauto.
    + intros [Hp [cfg Hc]]. unfold main, build_config, validate_provider.
      rewrite Hc, Hp. reflexivity.
  - intros code msg H. pose proof (Hexit _ _ H) as Hb.
    destruct (exit_only_from_validator _ _ _ _ Hb) as [He _]; eauto.
    injection He as -> ->. repeat split. unfold main. now rewrite Hb.
  - apply has_provider_false.
  - apply diagnostic_names_vars.
  - intros url Hu. destruct (only_ollama_config url Hu) as [cfg [Hb [Hd [Hh _]]]].
    unfold main. rewrite Hb. unfold hooks_snippet.
    destruct cfg; try discriminate. simpl in Hh.
    unfold py_get. destruct (dict_get d "hooks"); try discriminate.
    reflexivity.
Qed.

(* ------------------------------------------------------------------ *)
(** ** Convention overrides and the emitted document *)

Lemma set_nested_frame obj dotpath v obj' p :
  set_nested obj dotpath v = Ok obj' ->
  diverge p (split "." dotpath) = true ->
  get_path obj' p = get_path obj p.
Proof.
  unfold set_nested. destruct (split "." dotpath) as [|k rest]; try discriminate.
  apply set_keys_frame.
Qed.


Lemma convention_loop_frame items : forall cfg cfg' p,
  convention_loop' cfg items = Ok cfg' ->
  (forall key raw, In (key, raw) items -> startswith key prefix = true ->
                   diverge p (override_path key) = true) ->
  get_path cfg' p = get_path cfg p.
Proof.
  induction items as [|[key raw] rest IH]; intros cfg cfg' p H Hm; simpl in H.
  - now injection H as <-.
  - destruct (startswith key prefix) eqn:E; simpl in H.
    + apply bind_inv in H as [c [Es H]].
      rewrite (IH _ _ _ H)
        by (intros k r Hin Hs; apply (Hm k r); [now right|exact Hs]).
      apply (set_nested_frame _ _ _ _ _ Es).
      apply (Hm key raw); auto. now left.
    + apply (IH _ _ _ H).
      intros k r Hin Hs; apply (Hm k r); [now right|exact Hs].
Qed.


Lemma overrides_frame env cfg cfg' p :
  overrides env cfg = Ok cfg' -> overrides_miss env p ->
  get_path cfg' p = get_path cfg p.
Proof.
  unfold apply_convention_overrides. intros H Hm.
  apply (convention_loop_frame _ _ _ _ H).
  intros key raw Hin. apply (Hm key raw). now apply sorted_In.
Qed.

(** Sections 9 to 13 and a node outside the feature subtrees. *)
Lemma features_frame env cfg cfg' p :
  features env cfg = Ok cfg' ->
  diverge p ["tools"] = true -> diverge p ["channels"] = true ->
  diverge p ["browser"] = true -> diverge p ["hooks"] = true ->
  overrides_miss env p ->
  get_path cfg' p = get_path cfg p.
Proof.
  unfold feature_sections. intros H Ht Hc Hb Hh Hm.
  apply bind_inv in H as [c1 [E1 H]]. apply bind_inv in H as [c2 [E2 H]].
  apply bind_inv in H as [c3 [E3 H]]. apply bind_inv in H as [c4 [E4 H]].
  rewrite (overrides_frame _ _ _ _ H Hm).
  rewrite (hooks_frame _ _ _ _ E4 Hh), (browser_tool_frame _ _ _ _ E3 Hb).
  rewrite (proj2 (channels_spec _ _ _ E2) _ Hc).
  apply (deepgram_frame _ _ _ _ E1 Ht).
Qed.

(** The document written by a run is the one sections 1 to 14 built. *)
Lemma written_config hash_password env custom persisted final :
  openclaw_json (run_main hash_password env custom persisted) = Some final <->
  build env custom persisted = Ok final.
Proof.
  unfold main. destruct (build env custom persisted) as [cfg|e]; simpl.
  - destruct (hooks_snippet py_repr env cfg); simpl; split; congruence.
  - split; discriminate.
Qed.

Lemma build_inv env custom persisted final :
  build env custom persisted = Ok final ->
  has_provider env = true /\
  exists c7 c8,
    provider_sections env custom persisted = Ok c7 /\
    primary_model_selection env c7 = Ok c8 /\
    features env c8 = Ok final.
Proof.
  unfold build_config, resolved_config, validate_provider. intros H.
  apply bind_inv in H as [c [E H]].
  apply bind_inv in E as [c7 [E7 E]]. apply bind_inv in E as [c8 [E8 E]].
  destruct (has_provider env); simpl in H; try discriminate.
  injection H as <-. eauto 6.
Qed.

(** C2 (amended).  In the document a run writes, the entry of a built-in
    provider identifier under [models.providers] is absent when no
    bundled override document was loaded, and is the entry of the loaded
    document (bundled override merged with the persisted one) when one
    was, provided no convention override writes that entry, a node above
    it or a node below it. *)
Theorem builtin_provider_entries hash_password env custom persisted loaded hc final b :
  load_config custom persisted = Ok (loaded, hc) ->
  openclaw_json (run_main hash_password env custom persisted) = Some final ->
  In b BUILTIN_IDS ->
  overrides_miss env ["models"; "providers"; b] ->
  get_path final ["models"; "providers"; b] =
  match custom with
  | Some _ => get_path loaded ["models"; "providers"; b]
  | None => None
  end.
Proof.
  intros HL Hw Hb Hm. apply written_config in Hw.
  destruct (build_inv _ _ _ _ Hw) as [_ [c7 [c8 [E7 [E8 E]]]]].
  rewrite (features_frame _ _ _ _ E) by (auto; reflexivity).
  rewrite (primary_model_selection_frame _ _ _ _ E8) by reflexivity.
  eapply provider_sections_builtin; eauto.
Qed.

(** C1 (amended).  In the document a run writes, a channel of [CHANNELS]
    has an entry under [channels] exactly when its gate is open, or its
    gate is closed and the loaded document had the entry; with the gate
    closed the entry is the loaded document's, unchanged; all this
    provided no convention override writes that entry, a node above it
    or a node below it.  The gate of slack is open exactly when both
    [SLACK_BOT_TOKEN] and [SLACK_APP_TOKEN] are set to non-empty
    strings. *)
Theorem channel_entries hash_password env custom persisted loaded hc final ch :
  load_config custom persisted = Ok (loaded, hc) ->
  openclaw_json (run_main hash_password env custom persisted) = Some final ->
  In ch CHANNELS ->
  overrides_miss env ["channels"; ch_key ch] ->
  (get_path final ["channels"; ch_key ch] <> None <->
   gate_open env ch = true \/
   (get_path loaded ["channels"; ch_key ch] <> None /\ gate_open env ch = false)) /\
  (gate_open env ch = false ->
   get_path final ["channels"; ch_key ch] = get_path loaded ["channels"; ch_key ch]) /\
  (gate_open env slack =
   env_true env "SLACK_BOT_TOKEN" && env_true env "SLACK_APP_TOKEN").
Proof.
  intros HL Hw Hch Hm. apply written_config in Hw.
  destruct (build_inv _ _ _ _ Hw) as [_ [c7 [c8 [E7 [E8 E]]]]].
  unfold feature_sections in E.
  apply bind_inv in E as [c9 [E9 E]]. apply bind_inv in E as [c10 [E10 E]].
  apply bind_inv in E as [c11 [E11 E]]. apply bind_inv in E as [c12 [E12 E]].
  assert (Hafter : get_path final ["channels"; ch_key ch]
                   = get_path c10 ["channels"; ch_key ch]).
  { rewrite (overrides_frame _ _ _ _ E Hm).
    rewrite (hooks_frame _ _ _ _ E12) by reflexivity.
    apply (browser_tool_frame _ _ _ _ E11). reflexivity. }
  assert (Hbefore : get_path c9 ["channels"; ch_key ch]
                    = get_path loaded ["channels"; ch_key ch]).
  { rewrite (deepgram_frame _ _ _ _ E9) by reflexivity.
    rewrite (primary_model_selection_frame _ _ _ _ E8) by reflexivity.
    unfold provider_sections in E7. rewrite HL in E7. cbn [bind] in E7.
    apply bind_inv in E7 as [c1 [E1 E7]]. apply bind_inv in E7 as [c2 [E2 E7]].
    apply bind_inv in E7 as [c3 [E3 E7]]. apply bind_inv in E7 as [c4 [E4 E7]].
    apply bind_inv in E7 as [c5 [E5 E7]].
    rewrite (clean_builtin_providers_frame _ _ _ _ E7) by reflexivity.
    rewrite (ollama_frame _ _ _ _ _ E5) by reflexivity.
    rewrite (amazon_bedrock_frame _ _ _ _ _ E4) by reflexivity.
    rewrite (custom_providers_frame _ _ _ _ _ _ E3) by reflexivity.
    rewrite (agents_defaults_frame _ _ _ _ E2) by reflexivity.
    apply (gateway_config_frame _ _ _ _ E1). reflexivity. }
  destruct (proj1 (channels_spec _ _ _ E10) ch Hch) as [Hopen Hclosed].
  rewrite Hafter. rewrite <- Hbefore.
  split; [|split].
  - destruct (gate_open env ch) eqn:G.
    + destruct (Hopen eq_refl) as [obj ->]. split; [auto|discriminate].
    + rewrite (Hclosed eq_refl). split.
      * intros H. right. auto.
      * intros [H|[H _]]; [discriminate|exact H].
  - exact Hclosed.
  - unfold gate_open. simpl. now rewrite andb_true_r.
Qed.

Lemma get_keys_of_path : forall p obj v default,
  get_path obj p = Some v -> get_keys obj p default = v.
Proof.
  induction p as [|k p IH]; intros obj v default H; simpl in *.
  - now injection H as <-.
  - destruct obj; try discriminate.
    destruct (dict_get d k) as [child|]; try discriminate.
    destruct (json_is child default) eqn:E.
    + pose proof (json_is_eq _ _ E) as Heq. subst child.
      destruct default; simpl in E; try discriminate;
        destruct p; simpl in H; try discriminate; now injection H as <-.
    + eauto.
Qed.





(* ------------------------------------------------------------------ *)
(** ** Determinism *)

Lemma same_build env1 env2 custom persisted :
  (forall k, environ_get env1 k = environ_get env2 k) ->
  sorted env1 = sorted env2 ->
  build env1 custom persisted = build env2 custom persisted.
Proof.
  intros Hsame Hsorted.
  unfold build_config, resolved_config, feature_sections,
    apply_convention_overrides.
  rewrite (same_provider_sections _ _ Hsame), Hsorted.
  apply bind_ext.
  - apply bind_ext; auto. intros c7.
    rewrite (same_primary_model_selection _ _ Hsame).
    apply bind_ext; auto. intros c8.
    rewrite (same_deepgram _ _ Hsame). apply bind_ext; auto. intros c9.
    rewrite (same_channels _ _ Hsame). apply bind_ext; auto. intros c10.
    rewrite (same_browser_tool _ _ Hsame). apply bind_ext; auto. intros c11.
    rewrite (same_hooks _ _ Hsame). reflexivity.
  - intros cfg. apply same_validate_provider, Hsame.
Qed.

Lemma same_hooks_snippet env1 env2 cfg :
  (forall k, environ_get env1 k = environ_get env2 k) ->
  hooks_snippet py_repr env1 cfg = hooks_snippet py_repr env2 cfg.
Proof.
  intros Hsame. unfold hooks_snippet.
  now rewrite !(same_getenv _ _ Hsame).
Qed.

(** The variable names of [sorted(os.environ.items())] never decrease. *)
Lemma sorted_by_name env :
  StronglySorted (fun a b => String.leb (fst a) (fst b) = true) (sorted env).
Proof.
  pose proof (sorted_sorted env) as H.
  induction H as [|a l Hs IH Hall]; constructor; auto.
  eapply Forall_impl; [|exact Hall].
  intros b Hb. unfold item_le, item_leb in Hb. unfold String.leb.
  destruct (String.compare (fst a) (fst b)); auto; discriminate.
Qed.

(** C9 (amended).  Two runs on the same environment (the same variables
    with the same values, in whatever order the system lists them) and
    the same two starting documents end the same way and write the same
    document and the same hooks snippet, whatever the hash utility
    answers; they write the same authentication snippet when the hash
    utility gives both runs the same answer for the password, as it
    does when [AUTH_PASSWORD] is unset or empty and it is not called.
    Convention overrides are applied in the order of
    [sorted(os.environ.items())], which is the same list in both runs
    and is ordered by variable name. *)
Theorem run_deterministic hash1 hash2 env1 env2 custom persisted :
  NoDup (keys env1) ->
  Permutation env1 env2 ->
  let run1 := run_main hash1 env1 custom persisted in
  let run2 := run_main hash2 env2 custom persisted in
  raised run1 = raised run2 /\
  openclaw_json run1 = openclaw_json run2 /\
  hooks_caddyfile run1 = hooks_caddyfile run2 /\
  (hash1 (getenv env1 "AUTH_PASSWORD" "") = hash2 (getenv env1 "AUTH_PASSWORD" "") \/
   getenv env1 "AUTH_PASSWORD" "" = "" ->
   auth_caddyfile run1 = auth_caddyfile run2) /\
  sorted env1 = sorted env2 /\
  StronglySorted (fun a b => String.leb (fst a) (fst b) = true) (sorted env1).
Proof.
  intros Hnd Hp run1 run2.
  pose proof (permutation_environ_get _ _ Hnd Hp) as Hsame.
  pose proof (sorted_permutation _ _ Hp) as Hsorted.
  assert (Hauth : hash1 (getenv env1 "AUTH_PASSWORD" "")
                    = hash2 (getenv env1 "AUTH_PASSWORD" "") \/
                  getenv env1 "AUTH_PASSWORD" "" = "" ->
                  auth_snippet hash1 env1 = auth_snippet hash2 env2).
  { intros H. unfold auth_snippet.
    rewrite <- !(same_getenv _ _ Hsame).
    destruct H as [H|H].
    - now rewrite H.
    - now rewrite H. }
  unfold run1, run2, main.
  rewrite (same_build _ _ custom persisted Hsame Hsorted).
  destruct (build env2 custom persisted) as [cfg|e]; simpl.
  - rewrite (same_hooks_snippet _ _ cfg Hsame).
    destruct (hooks_snippet py_repr env2 cfg); simpl;
      repeat split; auto using sorted_by_name;
      intros H; now rewrite (Hauth H).
  - repeat split; auto using sorted_by_name.
Qed.

End Properties.

(* ------------------------------------------------------------------ *)
(** ** Closed examples *)

Lemma channel_entries_witness :
  exists final,
    openclaw_json
      (run_example [("ANTHROPIC_API_KEY", "sk"); ("SLACK_BOT_TOKEN", "xoxb")]
         None (Some (JDict [("channels", JDict [("slack", JDict [("mode", JStr "socket")])])])))
      = Some final /\
    gate_open [("ANTHROPIC_API_KEY", "sk"); ("SLACK_BOT_TOKEN", "xoxb")] slack = false /\
    get_path final ["channels"; "slack"] = Some (JDict [("mode", JStr "socket")]).
Proof.
  destruct (openclaw_json
              (run_example [("ANTHROPIC_API_KEY", "sk"); ("SLACK_BOT_TOKEN", "xoxb")]
                 None (Some (JDict [("channels", JDict [("slack", JDict [("mode", JStr "socket")])])]))))
    as [final|] eqn:Hw; [|vm_compute in Hw; discriminate Hw].
  exists final. split; [reflexivity|]. split; [reflexivity|].
  destruct (channel_entries float_rejects loads_rejects repr_unused
              (hash_returns "$2a$14$hash")
              [("ANTHROPIC_API_KEY", "sk"); ("SLACK_BOT_TOKEN", "xoxb")]
              None (Some (JDict [("channels", JDict [("slack", JDict [("mode", JStr "socket")])])]))
              (JDict [("channels", JDict [("slack", JDict [("mode", JStr "socket")])])])
              false final slack eq_refl Hw)
    as [_ [Hclosed _]].
  - simpl. auto.
  - intros key raw Hin Hpre. simpl in Hin.
    destruct Hin as [Hin|[Hin|[]]]; injection Hin as <- <-; discriminate Hpre.
  - pose proof (Hclosed eq_refl) as Hc. cbn [ch_key slack] in Hc.
    rewrite Hc. reflexivity.
Defined.

(** C1 as stated fails: with the gate of slack closed and no document
    loaded, a convention override leaves an entry for slack in the
    document written. *)
Lemma channel_entry_from_override :
  exists final,
    openclaw_json
      (run_example [("ANTHROPIC_API_KEY", "sk"); ("SLACK_BOT_TOKEN", "xoxb");
                    ("OPENCLAW_JSON__channels__slack__enabled", "true")]
         None None) = Some final /\
    load_config None None = Ok (JDict [], false) /\
    gate_open [("ANTHROPIC_API_KEY", "sk"); ("SLACK_BOT_TOKEN", "xoxb");
               ("OPENCLAW_JSON__channels__slack__enabled", "true")] slack = false /\
    get_path (JDict []) ["channels"; "slack"] = None /\
    get_path final ["channels"; "slack"] = Some (JDict [("enabled", JBool true)]).
Proof. eexists. repeat split; vm_compute; reflexivity. Qed.

Lemma builtin_provider_entries_witness :
  exists final,
    openclaw_json
      (run_example [("OPENAI_API_KEY", "sk")] None
         (Some (JDict [("models", JDict [("providers",
                   JDict [("openai", JDict [("api", JStr "openai-completions")]);
                          ("local", JDict [("api", JStr "openai-completions")])])])])))
      = Some final /\
    get_path final ["models"; "providers"; "openai"] = None /\
    get_path final ["models"; "providers"; "local"]
      = Some (JDict [("api", JStr "openai-completions")]).
Proof.
  destruct (openclaw_json
      (run_example [("OPENAI_API_KEY", "sk")] None
         (Some (JDict [("models", JDict [("providers",
                   JDict [("openai", JDict [("api", JStr "openai-completions")]);
                          ("local", JDict [("api", JStr "openai-completions")])])])]))))
    as [final|] eqn:Hw; [|vm_compute in Hw; discriminate Hw].
  exists final. split; [reflexivity|]. split.
  - apply (builtin_provider_entries float_rejects loads_rejects repr_unused
             (hash_returns "$2a$14$hash") [("OPENAI_API_KEY", "sk")] None
             (Some (JDict [("models", JDict [("providers",
                   JDict [("openai", JDict [("api", JStr "openai-completions")]);
                          ("local", JDict [("api", JStr "openai-completions")])])])]))
             (JDict [("models", JDict [("providers",
                   JDict [("openai", JDict [("api", JStr "openai-completions")]);
                          ("local", JDict [("api", JStr "openai-completions")])])])])
             false final "openai" eq_refl Hw).
    + simpl. auto.
    + intros key raw Hin Hpre. simpl in Hin.
      destruct Hin as [Hin|[]]; injection Hin as <- <-; discriminate Hpre.
  - vm_compute in Hw. injection Hw as <-. reflexivity.
Defined.

(** C2 as stated fails: with no bundled override loaded, a convention
    override leaves an entry for a built-in identifier. *)
Lemma builtin_entry_from_override :
  exists final,
    openclaw_json
      (run_example [("OPENAI_API_KEY", "sk");
                    ("OPENCLAW_JSON__models__providers__openai__enabled", "true")]
         None None) = Some final /\
    In "openai" BUILTIN_IDS /\
    get_path final ["models"; "providers"; "openai"]
      = Some (JDict [("enabled", JBool true)]).
Proof.
  eexists. split; [vm_compute; reflexivity|]. split; [simpl; auto|reflexivity].
Qed.



(** C8 as stated fails: [OLLAMA_BASE_URL] is the one credential variable
    set, to a string that is not empty, and the run exits with code 1;
    and a run without any credential signal can end in another exception
    than the validator's exit. *)
Lemma ollama_slash_exits :
  environ_get [("OLLAMA_BASE_URL", "/")] "OLLAMA_BASE_URL" = Some "/" /\
  raised (run_example [("OLLAMA_BASE_URL", "/")] None None)
    = Some (SystemExit 1 NO_PROVIDER_MESSAGE) /\
  exit_code (run_example [("OLLAMA_BASE_URL", "/")] None None) = 1 /\
  has_provider [("OPENCLAW_GATEWAY_PORT", "http")] = false /\
  raised (run_example [("OPENCLAW_GATEWAY_PORT", "http")] None None)
    = Some ValueError.
Proof. repeat split; vm_compute; reflexivity. Qed.

Lemma run_deterministic_witness :
  run_example [("GROQ_API_KEY", "gsk"); ("HOOKS_ENABLED", "1");
               ("OPENCLAW_JSON__hooks__path", "/in")] None None
  = run_example [("OPENCLAW_JSON__hooks__path", "/in"); ("GROQ_API_KEY", "gsk");
                 ("HOOKS_ENABLED", "1")] None None.
Proof.
  destruct (run_deterministic float_rejects loads_rejects repr_unused
              (hash_returns "$2a$14$hash") (hash_returns "$2a$14$hash")
              [("GROQ_API_KEY", "gsk"); ("HOOKS_ENABLED", "1");
               ("OPENCLAW_JSON__hooks__path", "/in")]
              [("OPENCLAW_JSON__hooks__path", "/in"); ("GROQ_API_KEY", "gsk");
               ("HOOKS_ENABLED", "1")] None None)
    as [Hr [Hc [Hh [Ha _]]]].
  - simpl. repeat constructor; simpl; intuition discriminate.
  - apply Permutation_sym.
    apply (Permutation_cons_app
             [("GROQ_API_KEY", "gsk"); ("HOOKS_ENABLED", "1")] []).
    rewrite app_nil_r. apply Permutation_refl.
  - specialize (Ha (or_introl eq_refl)).
    unfold run_example in *.
    destruct (main _ _ _ _ [("GROQ_API_KEY", "gsk"); _; _] None None);
      destruct (main _ _ _ _ [("OPENCLAW_JSON__hooks__path", "/in"); _; _] None None);
      simpl in *; congruence.
Defined.

(** C9 as stated fails: the same environment and documents, and two
    different authentication snippets, because the hash utility salts
    its output. *)
Lemma auth_snippet_depends_on_hash :
  auth_caddyfile
    (main float_rejects loads_rejects repr_unused (hash_returns "$2a$14$saltA")
          [("ANTHROPIC_API_KEY", "sk"); ("AUTH_PASSWORD", "secret")] None None)
  <> auth_caddyfile
    (main float_rejects loads_rejects repr_unused (hash_returns "$2a$14$saltB")
          [("ANTHROPIC_API_KEY", "sk"); ("AUTH_PASSWORD", "secret")] None None).
Proof. vm_compute. intros H. discriminate H. Qed.

(** The channel section on an empty token, on empty field variables and
    on an empty integer field. *)
Example empty_token_and_empty_fields :
  channels [("TELEGRAM_BOT_TOKEN", "")] (JDict []) = Ok (JDict []) /\
  channels [("TELEGRAM_BOT_TOKEN", "t"); ("TELEGRAM_PROXY", "");
            ("TELEGRAM_ALLOW_FROM", "")] (JDict [])
    = Ok (JDict [("channels",
                  JDict [("telegram",
                          JDict [("enabled", JBool true); ("botToken", JStr "t");
                                 ("proxy", JStr ""); ("allowFrom", JList [])])])]) /\
  channels [("TELEGRAM_BOT_TOKEN", "t"); ("TELEGRAM_MEDIA_MAX_MB", "")] (JDict [])
    = Raise ValueError.
Proof. repeat split; vm_compute; reflexivity. Qed.

(* ================================================================== *)
(** * Further properties of the engine *)

(** ** [ensure] *)

Lemma dict_set_set {V} (d : dict V) k v w :
  dict_set (dict_set d k v) k w = dict_set d k w.
Proof.
  induction d as [|[k' v'] d IH]; simpl.
  - now rewrite String.eqb_refl.
  - destruct (String.eqb k' k) eqn:E; simpl.
    + now rewrite String.eqb_refl.
    + now rewrite E, IH.
Qed.

Lemma ensure_ok : forall q cfg,
  isinstance_dict cfg = true ->
  exists cfg', ensure cfg q = Ok cfg' /\ isinstance_dict cfg' = true.
Proof.
  induction q as [|k q IH]; intros cfg Hd; simpl.
  - eauto.
  - destruct cfg; try discriminate.
    destruct (IH (match dict_get d k with
                  | Some (JDict c) => JDict c
                  | _ => JDict []
                  end)) as [cur' [Hc _]].
    { destruct (dict_get d k) as [[]|]; reflexivity. }
    rewrite Hc. simpl. eauto.
Qed.

Lemma ensure_prefix_mapping : forall q cfg cfg' p,
  ensure cfg q = Ok cfg' -> isinstance_dict cfg = true ->
  is_prefix p q = true -> mapping_at cfg' p.
Proof.
  induction q as [|k q IH]; intros cfg cfg' p H Hd Hp; simpl in H.
  - injection H as <-. destruct p; try discriminate.
    destruct cfg; try discriminate. exists d. reflexivity.
  - destruct cfg; try discriminate.
    apply bind_inv in H as [cur' [Hc H]]. injection H as <-.
    destruct p as [|k1 p]; simpl in Hp.
    + eexists. reflexivity.
    + apply andb_true_iff in Hp as [Hk Hp]. apply String.eqb_eq in Hk. subst k1.
      unfold mapping_at. simpl. rewrite dict_get_set_eq.
      eapply IH; eauto. destruct (dict_get d k) as [[]|]; reflexivity.
Qed.

Lemma ensure_idempotent : forall q cfg cfg',
  ensure cfg q = Ok cfg' -> ensure cfg' q = Ok cfg'.
Proof.
  induction q as [|k q IH]; intros cfg cfg' H; simpl in H.
  - now injection H as <-.
  - destruct cfg; try discriminate.
    apply bind_inv in H as [cur' [Hc H]]. injection H as <-.
    simpl. rewrite dict_get_set_eq.
    assert (Hd : exists c, cur' = JDict c).
    { destruct q; simpl in Hc.
      - injection Hc as <-. destruct (dict_get d k) as [[]|]; eauto.
      - destruct (match dict_get d k with
                  | Some (JDict c) => JDict c
                  | _ => JDict []
                  end); try discriminate.
        apply bind_inv in Hc as [c2 [_ Hc]]. injection Hc as <-. eauto. }
    destruct Hd as [c ->]. rewrite (IH _ _ Hc). simpl.
    now rewrite dict_set_set.
Qed.

(** On a mapping [ensure] returns; afterwards there is a mapping at the
    path and at every node above it, every node that does not lie on the
    path is as before, and a second call changes nothing. *)
Theorem ensure_creates_mappings cfg q :
  isinstance_dict cfg = true ->
  exists cfg',
    ensure cfg q = Ok cfg' /\
    (forall p, is_prefix p q = true -> mapping_at cfg' p) /\
    (forall p, is_prefix p q = false -> get_path cfg' p = get_path cfg p) /\
    ensure cfg' q = Ok cfg'.
Proof.
  intros Hd. destruct (ensure_ok q cfg Hd) as [cfg' [H _]].
  exists cfg'. split; [exact H|]. split; [|split].
  - intros p Hp. eapply ensure_prefix_mapping; eauto.
  - intros p Hp. eapply ensure_frame; eauto.
  - eapply ensure_idempotent; eauto.
Qed.

Lemma ensure_creates_mappings_witness :
  exists cfg',
    ensure (JDict [("tools", JStr "off"); ("hooks", JDict [("path", JStr "/h")])])
           ["tools"; "media"; "audio"] = Ok cfg' /\
    mapping_at cfg' ["tools"; "media"] /\
    get_path cfg' ["hooks"; "path"] = Some (JStr "/h").
Proof.
  destruct (ensure_creates_mappings
              (JDict [("tools", JStr "off"); ("hooks", JDict [("path", JStr "/h")])])
              ["tools"; "media"; "audio"] eq_refl)
    as [cfg' [H [Hm [Hf _]]]].
  exists cfg'. split; [exact H|]. split.
  - apply Hm. reflexivity.
  - rewrite Hf by reflexivity. reflexivity.
Defined.

(** ** [get_nested] *)

Lemma get_keys_none : forall p obj default,
  get_path obj p = None -> get_keys obj p default = default.
Proof.
  induction p as [|k p IH]; intros obj default H; simpl in *.
  - discriminate.
  - destruct obj; auto. destruct (dict_get d k) as [child|]; auto.
    destruct (json_is child default); auto.
Qed.

(** [get_nested] returns the node at the path when every segment leads
    through a mapping to a key that is present, and the default in every
    other case. *)
Theorem get_nested_reads_path obj dotpath default :
  get_nested obj dotpath default =
  match get_path obj (split "." dotpath) with
  | Some v => v
  | None => default
  end.
Proof.
  unfold get_nested.
  destruct (get_path obj (split "." dotpath)) as [v|] eqn:E.
  - now apply get_keys_of_path.
  - now apply get_keys_none.
Qed.

(** ** [parse_value] *)








(** ** [apply_fields] *)

Lemma apply_fields_frame env fields : forall obj obj' p,
  apply_fields env obj fields = Ok obj' ->
  (forall f, In f fields -> environ_get env (fst (fst f)) <> None ->
             diverge p (field_path f) = true) ->
  get_path obj' p = get_path obj p.
Proof.
  induction fields as [|[[var path] hint] rest IH]; intros obj obj' p H Hd;
    simpl in H.
  - now injection H as <-.
  - apply bind_inv in H as [obj1 [H1 H]].
    rewrite (IH _ _ _ H) by (intros f Hf; apply Hd; now right).
    destruct (environ_get env var) as [raw|] eqn:E.
    + apply bind_inv in H1 as [v [_ H1]].
      eapply set_nested_frame; eauto.
      apply (Hd (var, path, hint)); [now left|]. simpl. now rewrite E.
    + now injection H1 as <-.
Qed.






(** [apply_fields] reads only the variables that are set: a field whose
    variable is absent writes nothing, so with none of them set the object
    comes back as it was, and in general every node stays as it was that no
    set field's path reaches. *)
Theorem apply_fields_touches_set_fields_only env fields obj :
  ((forall f, In f fields -> environ_get env (fst (fst f)) = None) ->
   apply_fields env obj fields = Ok obj) /\
  (forall obj' p,
     apply_fields env obj fields = Ok obj' ->
     (forall f, In f fields -> environ_get env (fst (fst f)) <> None ->
                diverge p (field_path f) = true) ->
     get_path obj' p = get_path obj p).
Proof.
  split.
  - revert obj. induction fields as [|[[var path] hint] rest IH]; intros obj H.
    + reflexivity.
    + simpl. pose proof (H (var, path, hint) (or_introl eq_refl)) as E.
      simpl in E. rewrite E. simpl. apply IH. intros f Hf. apply H. now right.
  - intros obj' p. apply apply_fields_frame.
Qed.

(** ** Steps that cannot fail *)



Lemma mapping_at_top cfg p : mapping_at cfg p -> isinstance_dict cfg = true.
Proof.
  intros [d H]. destruct p; simpl in H.
  - now injection H as ->.
  - destruct cfg; try discriminate. reflexivity.
Qed.










Lemma del_provider_returns cfg name :
  exists cfg', del_provider cfg name = Ok cfg'.
Proof.
  unfold del_provider. rewrite get_nested_providers.
  destruct (get_path cfg ["models"; "providers"]) as [[]|] eqn:E; eauto.
  destruct (dict_mem d name) eqn:Em; eauto.
  eapply update_at_ok; eauto. simpl. now rewrite Em.
Qed.






















(** ** Sections 1 to 9 of [main] *)



(** ** Section 1 of [main]: the configuration files *)

Lemma merge_into_empty (p : dict json) :
  NoDup (keys p) -> deep_merge (JDict []) (JDict p) = Ok (JDict p).
Proof.
  intros Hn. destruct (deep_merge_total (JDict p) [] eq_refl) as [r Hr].
  rewrite Hr. rewrite deep_merge_items in Hr.
  destruct (merge_items_spec p [] r Hn Hr) as [_ Happ].
  rewrite Happ; [reflexivity|]. intros k _ [].
Qed.

(** Without a bundled file the document that is loaded is the persisted
    one, entry for entry and in the same order; a bundled file alone is
    taken as it is; and a persisted file that parses to anything but an
    object ends the run with [AttributeError], whatever the bundled file. *)
Theorem load_config_outcome :
  (forall p, NoDup (keys p) ->
             load_config None (Some (JDict p)) = Ok (JDict p, false)) /\
  (forall c, load_config (Some c) None = Ok (c, true)) /\
  (forall custom p, isinstance_dict p = false ->
                    load_config custom (Some p) = Raise AttributeError).
Proof.
  split; [|split].
  - intros p Hn. unfold load_config. now rewrite (merge_into_empty p Hn).
  - reflexivity.
  - intros custom p Hp. unfold load_config.
    destruct p; try discriminate; reflexivity.
Qed.

Lemma load_config_outcome_witness :
  load_config None (Some (JDict [("gateway", JDict [("port", JInt 8080)]);
                                 ("hooks", JNull)]))
  = Ok (JDict [("gateway", JDict [("port", JInt 8080)]); ("hooks", JNull)], false).
Proof.
  apply (proj1 load_config_outcome).
  repeat constructor; simpl; intuition discriminate.
Defined.

Lemma merge_items_non_mapping items target :
  isinstance_dict target = false -> items <> [] ->
  merge_items items target = Raise AttributeError \/
  merge_items items target = Raise TypeError.
Proof.
  intros Ht Hi. destruct items as [|[key val] rest]; [congruence|].
  destruct target; try discriminate; destruct val; simpl; auto.
Qed.

(** A bundled file that parses to anything but an object stops the run
    before section 3, with [TypeError] or [AttributeError]: nothing of
    such a file is ever written. *)
Theorem non_mapping_custom_file_stops_the_run env c persisted :
  isinstance_dict c = false ->
  provider_sections env (Some c) persisted = Raise TypeError \/
  provider_sections env (Some c) persisted = Raise AttributeError.
Proof.
  intros Hc.
  assert (Hg : gateway_config env c = Raise TypeError).
  { unfold gateway_config. destruct c; try discriminate; reflexivity. }
  unfold provider_sections, load_config.
  destruct persisted as [p|]; cbn [bind].
  - destruct p; try (right; reflexivity).
    rewrite deep_merge_items. destruct d as [|item rest].
    + simpl. rewrite Hg. now left.
    + destruct (merge_items_non_mapping (item :: rest) c Hc) as [-> | ->];
        try discriminate; auto.
  - rewrite Hg. now left.
Qed.

Lemma non_mapping_custom_file_stops_the_run_witness :
  provider_sections [("ANTHROPIC_API_KEY", "sk")] (Some (JList [])) None
    = Raise TypeError \/
  provider_sections [("ANTHROPIC_API_KEY", "sk")] (Some (JList [])) None
    = Raise AttributeError.
Proof.
  exact (non_mapping_custom_file_stops_the_run
           [("ANTHROPIC_API_KEY", "sk")] (JList []) None eq_refl).
Defined.

(** ** Section 2 of [main]: the gateway *)



Lemma discard_get cfg q k cfg' :
  discard cfg q k = Ok cfg' -> get_path cfg' (q ++ [k]) = None.
Proof.
  unfold discard. intros H.
  destruct (update_at_inv _ _ _ _ H) as [node [node' [_ [Hf Hr]]]].
  rewrite Hr. destruct node; try discriminate. injection Hf as <-.
  simpl. now rewrite dict_get_del_eq.
Qed.









(** ** Sections 4 to 7 of [main]: the entries of the explicit providers *)

Lemma custom_provider_at env hc cfg prov cfg' :
  custom_provider env hc cfg prov = Ok cfg' ->
  get_path cfg' ["models"; "providers"; p_key prov] =
  if env_true env (p_env prov) then Some (custom_entry env prov)
  else if hc then get_path cfg ["models"; "providers"; p_key prov] else None.
Proof.
  unfold custom_provider, custom_entry, remove_provider. intros H.
  destruct (env_true env (p_env prov)) eqn:E.
  - rewrite (environ_item_getenv _ _ E) in H. cbn [bind] in H.
    apply bind_inv in H as [c [_ H]]. apply assign_get in H. simpl app in H.
    rewrite H. now destruct (p_base prov).
  - destruct hc; simpl in H.
    + now injection H as <-.
    + eapply del_provider_get; eauto.
Qed.

Lemma custom_providers_at env hc provs : forall cfg cfg' prov,
  NoDup (map p_key provs) ->
  custom_providers env hc cfg provs = Ok cfg' -> In prov provs ->
  get_path cfg' ["models"; "providers"; p_key prov] =
  if env_true env (p_env prov) then Some (custom_entry env prov)
  else if hc then get_path cfg ["models"; "providers"; p_key prov] else None.
Proof.
  induction provs as [|prov0 rest IH]; intros cfg cfg' prov Hn H Hin;
    simpl in H, Hin, Hn.
  - contradiction.
  - apply bind_inv in H as [c [E H]]. inversion Hn as [|? ? Hnotin Hn']; subst.
    destruct Hin as [->|Hin].
    + rewrite (custom_providers_entry _ _ _ _ _ _ H Hnotin).
      eapply custom_provider_at; eauto.
    + rewrite (IH _ _ _ Hn' H Hin).
      rewrite (custom_provider_entry _ _ _ _ _ (p_key prov) E); auto.
      intros Heq. apply Hnotin. rewrite <- Heq. now apply in_map.
Qed.

Lemma clean_builtin_other hc builtins b : forall cfg cfg',
  clean_builtin hc cfg builtins = Ok cfg' -> ~ In b (map snd builtins) ->
  get_path cfg' ["models"; "providers"; b] = get_path cfg ["models"; "providers"; b].
Proof.
  induction builtins as [|[[env_key label] provider_key] rest IH];
    intros cfg cfg' H Hn; simpl in H, Hn.
  - now injection H as <-.
  - apply bind_inv in H as [c [E H]]. rewrite (IH _ _ H) by tauto.
    destruct (negb hc); [|now injection E as <-].
    apply (del_provider_frame _ _ _ _ E). simpl.
    destruct (String.eqb b provider_key) eqn:Eb; auto.
    apply String.eqb_eq in Eb. subst. tauto.
Qed.

Lemma clean_builtin_providers_other hc cfg cfg' b :
  clean_builtin_providers hc cfg = Ok cfg' -> ~ In b BUILTIN_IDS ->
  get_path cfg' ["models"; "providers"; b] = get_path cfg ["models"; "providers"; b].
Proof.
  unfold clean_builtin_providers, BUILTIN_IDS. intros H Hn.
  apply bind_inv in H as [c [E H]].
  rewrite <- (clean_builtin_other _ _ b _ _ E)
    by (intros Hb; apply Hn, in_or_app; now left).
  destruct (negb hc); [|now injection H as <-].
  apply (del_provider_frame _ _ _ _ H). simpl.
  destruct (String.eqb b "opencode") eqn:Eb; auto.
  apply String.eqb_eq in Eb. subst. exfalso. apply Hn, in_or_app. right. now left.
Qed.

Lemma clean_builtin_discovery hc builtins : forall cfg cfg',
  clean_builtin hc cfg builtins = Ok cfg' ->
  get_path cfg' ["models"; "bedrockDiscovery"] = get_path cfg ["models"; "bedrockDiscovery"].
Proof.
  induction builtins as [|[[env_key label] provider_key] rest IH];
    intros cfg cfg' H; simpl in H.
  - now injection H as <-.
  - apply bind_inv in H as [c [E H]]. rewrite (IH _ _ H).
    destruct (negb hc); [|now injection E as <-].
    now apply (del_provider_frame _ _ _ _ E).
Qed.

Lemma clean_builtin_providers_discovery hc cfg cfg' :
  clean_builtin_providers hc cfg = Ok cfg' ->
  get_path cfg' ["models"; "bedrockDiscovery"] = get_path cfg ["models"; "bedrockDiscovery"].
Proof.
  unfold clean_builtin_providers. intros H.
  apply bind_inv in H as [c [E H]].
  rewrite <- (clean_builtin_discovery _ _ _ _ E).
  destruct (negb hc); [|now injection H as <-].
  now apply (del_provider_frame _ _ _ _ H).
Qed.

Lemma custom_keys_explicit prov :
  In prov CUSTOM_PROVIDERS ->
  p_key prov <> "amazon-bedrock" /\ p_key prov <> "ollama" /\
  ~ In (p_key prov) BUILTIN_IDS.
Proof.
  intros Hin. split; [|split].
  - simpl in Hin. intuition (subst; discriminate).
  - simpl in Hin. intuition (subst; discriminate).
  - intros Hb. apply (builtin_not_explicit _ Hb).
    unfold EXPLICIT_KEYS. apply in_or_app. left. now apply in_map.
Qed.

Lemma custom_keys_nodup : NoDup (map p_key CUSTOM_PROVIDERS).
Proof. simpl. repeat constructor; simpl; intuition discriminate. Qed.

(** The run so far, taken apart section by section. *)
Lemma provider_sections_inv env custom persisted loaded hc cfg :
  load_config custom persisted = Ok (loaded, hc) ->
  provider_sections env custom persisted = Ok cfg ->
  exists c2 c3 c4 c5 c6,
    gateway_config env loaded = Ok c2 /\
    agents_defaults env c2 = Ok c3 /\
    custom_providers env hc c3 CUSTOM_PROVIDERS = Ok c4 /\
    amazon_bedrock env hc c4 = Ok c5 /\
    ollama env hc c5 = Ok c6 /\
    clean_builtin_providers hc c6 = Ok cfg.
Proof.
  intros Hl H. unfold provider_sections in H. rewrite Hl in H. cbn [bind] in H.
  apply bind_inv in H as [c2 [H2 H]]. apply bind_inv in H as [c3 [H3 H]].
  apply bind_inv in H as [c4 [H4 H]]. apply bind_inv in H as [c5 [H5 H]].
  apply bind_inv in H as [c6 [H6 H]]. exists c2, c3, c4, c5, c6. auto 10.
Qed.

(** After sections 1 to 7, the entry of a custom provider is decided by
    its variable alone: when the variable is set the entry is the four
    fields of the schema with the key from the environment and the base
    URL without trailing slashes, whatever entry the files held; when it
    is not set the entry is the one of the loaded document if there is a
    bundled file, and there is none otherwise. *)
Theorem custom_provider_entries env custom persisted loaded hc cfg prov :
  load_config custom persisted = Ok (loaded, hc) ->
  provider_sections env custom persisted = Ok cfg ->
  In prov CUSTOM_PROVIDERS ->
  get_path cfg ["models"; "providers"; p_key prov] =
  if env_true env (p_env prov) then Some (custom_entry env prov)
  else if hc then get_path loaded ["models"; "providers"; p_key prov]
  else None.
Proof.
  intros Hl H Hin.
  destruct (provider_sections_inv _ _ _ _ _ _ Hl H)
    as [c2 [c3 [c4 [c5 [c6 [H2 [H3 [H4 [H5 [H6 H7]]]]]]]]]].
  destruct (custom_keys_explicit prov Hin) as [Hb [Ho Hn]].
  rewrite (clean_builtin_providers_other _ _ _ _ H7 Hn).
  rewrite (ollama_entry _ _ _ _ _ H6 Ho).
  rewrite (amazon_bedrock_entry _ _ _ _ _ H5 Hb).
  rewrite (custom_providers_at _ _ _ _ _ _ custom_keys_nodup H4 Hin).
  rewrite (agents_defaults_frame _ _ _ _ H3) by reflexivity.
  rewrite (gateway_config_frame _ _ _ _ H2) by reflexivity.
  reflexivity.
Qed.

Lemma custom_provider_entries_witness :
  exists cfg,
    provider_sections [("MOONSHOT_API_KEY", "mk"); ("MOONSHOT_BASE_URL", "http://m/v1//")]
                      None None = Ok cfg /\
    get_path cfg ["models"; "providers"; "moonshot"; "baseUrl"]
      = Some (JStr "http://m/v1") /\
    get_path cfg ["models"; "providers"; "venice"] = None.
Proof.
  eexists. split; [vm_compute; reflexivity|].
  match goal with |- get_path ?c _ = _ /\ _ =>
    pose proof (fun prov => custom_provider_entries
                  [("MOONSHOT_API_KEY", "mk"); ("MOONSHOT_BASE_URL", "http://m/v1//")]
                  None None (JDict []) false c prov eq_refl eq_refl) as Hw
  end.
  split.
  - reflexivity.
  - apply (Hw (Provider "venice" "VENICE_API_KEY" "openai-completions"
                 (BaseUrl "https://api.venice.ai/api/v1")
                 (JList [model_entry "llama-3.3-70b" "Llama 3.3 70B" 128000]))).
    simpl. auto.
Defined.







Lemma amazon_bedrock_at env hc cfg cfg' :
  amazon_bedrock env hc cfg = Ok cfg' ->
  if env_true env "AWS_ACCESS_KEY_ID" && env_true env "AWS_SECRET_ACCESS_KEY"
  then get_path cfg' ["models"; "providers"; "amazon-bedrock"; "baseUrl"] =
         Some (JStr ("https://bedrock-runtime." ++ bedrock_region env ++ ".amazonaws.com")) /\
       get_path cfg' ["models"; "bedrockDiscovery"] =
         Some (JDict [ ("enabled", JBool true);
                       ("region", JStr (bedrock_region env));
                       ("providerFilter",
                        JStr (getenv env "BEDROCK_PROVIDER_FILTER" "anthropic"));
                       ("refreshInterval", JInt 3600) ])
  else if hc
       then get_path cfg' ["models"; "providers"; "amazon-bedrock"; "baseUrl"] =
              get_path cfg ["models"; "providers"; "amazon-bedrock"; "baseUrl"] /\
            get_path cfg' ["models"; "bedrockDiscovery"] =
              get_path cfg ["models"; "bedrockDiscovery"]
       else get_path cfg' ["models"; "providers"; "amazon-bedrock"] = None /\
            get_path cfg' ["models"; "bedrockDiscovery"] = None.
Proof.
  unfold amazon_bedrock, bedrock_region. intros H.
  destruct (env_true env "AWS_ACCESS_KEY_ID" && env_true env "AWS_SECRET_ACCESS_KEY").
  - apply bind_inv in H as [c1 [H1 H]]. apply bind_inv in H as [c2 [H2 H]].
    apply bind_inv in H as [c3 [H3 H]]. split.
    + rewrite (assign_frame _ _ _ _ _ _ H) by reflexivity.
      rewrite (ensure_frame _ _ _ _ H3) by reflexivity.
      apply assign_get in H2. simpl app in H2.
      change ["models"; "providers"; "amazon-bedrock"; "baseUrl"]
        with (["models"; "providers"; "amazon-bedrock"] ++ ["baseUrl"])%list.
      rewrite get_path_app, H2. reflexivity.
    + apply assign_get in H. exact H.
  - destruct hc; simpl in H.
    + injection H as <-. auto.
    + apply bind_inv in H as [c1 [H1 H]]. apply bind_inv in H as [v [Hv H]].
      destruct c1; try discriminate. simpl in Hv.
      destruct (dict_get d "models") as [models|] eqn:Em.
      * injection Hv as <-. destruct models;
          try (injection H as <-; split;
               [eapply del_provider_get; eauto | simpl; now rewrite Em]).
        split.
        -- rewrite (discard_frame _ _ _ _ _ H) by reflexivity.
           eapply del_provider_get; eauto.
        -- apply discard_get in H. exact H.
      * injection Hv as <-. injection H as <-. split.
        -- eapply del_provider_get; eauto.
        -- simpl. now rewrite Em.
Qed.

Lemma ollama_discovery env hc cfg cfg' p :
  p = ["models"; "bedrockDiscovery"] \/
  p = ["models"; "providers"; "amazon-bedrock"; "baseUrl"] ->
  ollama env hc cfg = Ok cfg' -> get_path cfg' p = get_path cfg p.
Proof.
  unfold ollama. intros [-> | ->] H; run_inv; frame_with ltac:(reflexivity).
Qed.

(** After sections 1 to 7 with both AWS credentials set, the Bedrock
    entry points at the region of [AWS_REGION], else of
    [AWS_DEFAULT_REGION], else at us-east-1, and the discovery block is
    enabled for the same region; with a credential missing and no bundled
    file, neither the entry nor the discovery block is left in the
    document. *)
Theorem bedrock_region_and_cleanup env custom persisted loaded hc cfg :
  load_config custom persisted = Ok (loaded, hc) ->
  provider_sections env custom persisted = Ok cfg ->
  if env_true env "AWS_ACCESS_KEY_ID" && env_true env "AWS_SECRET_ACCESS_KEY"
  then get_path cfg ["models"; "providers"; "amazon-bedrock"; "baseUrl"] =
         Some (JStr ("https://bedrock-runtime." ++ bedrock_region env ++ ".amazonaws.com")) /\
       get_path cfg ["models"; "bedrockDiscovery"] =
         Some (JDict [ ("enabled", JBool true);
                       ("region", JStr (bedrock_region env));
                       ("providerFilter",
                        JStr (getenv env "BEDROCK_PROVIDER_FILTER" "anthropic"));
                       ("refreshInterval", JInt 3600) ])
  else hc = false ->
       get_path cfg ["models"; "providers"; "amazon-bedrock"] = None /\
       get_path cfg ["models"; "bedrockDiscovery"] = None.
Proof.
  intros Hl H.
  destruct (provider_sections_inv _ _ _ _ _ _ Hl H)
    as [c2 [c3 [c4 [c5 [c6 [H2 [H3 [H4 [H5 [H6 H7]]]]]]]]]].
  assert (Hn : ~ In "amazon-bedrock" BUILTIN_IDS)
    by (intros Hb; apply (builtin_not_explicit _ Hb); simpl; auto 10).
  pose proof (amazon_bedrock_at _ _ _ _ H5) as Hb.
  rewrite (clean_builtin_providers_discovery _ _ _ H7).
  rewrite (ollama_discovery _ _ _ _ _ (or_introl eq_refl) H6).
  destruct (env_true env "AWS_ACCESS_KEY_ID" && env_true env "AWS_SECRET_ACCESS_KEY").
  - destruct Hb as [Hb Hd]. split; [|exact Hd].
    rewrite <- Hb, <- (ollama_discovery _ _ _ _ _ (or_intror eq_refl) H6).
    change ["models"; "providers"; "amazon-bedrock"; "baseUrl"]
      with (["models"; "providers"; "amazon-bedrock"] ++ ["baseUrl"])%list.
    rewrite !get_path_app.
    now rewrite (clean_builtin_providers_other _ _ _ _ H7 Hn).
  - intros ->. destruct Hb as [Hb Hd]. split; [|exact Hd].
    rewrite (clean_builtin_providers_other _ _ _ _ H7 Hn).
    rewrite (ollama_entry _ _ _ _ _ H6) by discriminate. exact Hb.
Qed.

Lemma bedrock_region_and_cleanup_witness :
  exists cfg,
    provider_sections [("AWS_ACCESS_KEY_ID", "id"); ("AWS_SECRET_ACCESS_KEY", "key");
                       ("AWS_REGION", ""); ("AWS_DEFAULT_REGION", "eu-west-1")]
                      None None = Ok cfg /\
    get_path cfg ["models"; "providers"; "amazon-bedrock"; "baseUrl"] =
      Some (JStr "https://bedrock-runtime.eu-west-1.amazonaws.com").
Proof.
  eexists.
  match goal with |- ?run = Ok ?c /\ _ =>
    assert (Hrun : run = Ok c) by (vm_compute; reflexivity)
  end.
  split; [exact Hrun|].
  exact (proj1 (bedrock_region_and_cleanup
                  [("AWS_ACCESS_KEY_ID", "id"); ("AWS_SECRET_ACCESS_KEY", "key");
                   ("AWS_REGION", ""); ("AWS_DEFAULT_REGION", "eu-west-1")]
                  None None (JDict []) false _ eq_refl Hrun)).
Defined.

(** ** Section 10 of [main]: what a channel entry holds *)









Lemma forallb_diverge_sym p l y :
  forallb (diverge p) l = true -> In y l -> diverge y p = true.
Proof.
  intros H Hy. rewrite forallb_forall in H. rewrite diverge_sym. auto.
Qed.



(** ** Sections 8 and 14: a credential gives a primary model *)

Lemma first_signal_some resolved : forall priority e,
  In e priority -> env_true resolved (fst e) = true ->
  exists model, first_signal resolved priority = Some model /\
                In model (map snd priority).
Proof.
  induction priority as [|[k0 m0] rest IH]; intros e Hin He; simpl in *.
  - contradiction.
  - destruct (env_true resolved k0) eqn:E0; [eauto|].
    destruct Hin as [<-|Hin]; [simpl in He; congruence|].
    destruct (IH e Hin He) as [m [Hm Hi]]. eauto.
Qed.

Lemma is_signal_resolved env k :
  is_signal k = true -> env_true env k = true ->
  exists e, In e PRIMARY_MODEL_PRIORITY /\ env_true (resolved_env env) (fst e) = true.
Proof.
  unfold is_signal. intros Hs Hk.
  apply andb_true_iff in Hs as [Hs Hc]. apply andb_true_iff in Hs as [Hs Ho].
  apply negb_true_iff in Hc, Ho.
  apply existsb_exists in Hs as [k' [Hin Heq]]. apply String.eqb_eq in Heq. subst k'.
  apply in_map_iff in Hin as [e [He Hin]]. exists e. split; [exact Hin|].
  rewrite env_true_resolved, He. unfold resolved_signal. now rewrite Ho, Hc.
Qed.

Lemma credential_vars_are_signals :
  forallb (fun b => is_signal (fst (fst b))) BUILTIN_PROVIDERS = true /\
  forallb (fun p => is_signal (p_env p)) CUSTOM_PROVIDERS = true /\
  is_signal "AWS_ACCESS_KEY_ID" = true.
Proof. vm_compute. auto. Qed.

Lemma has_provider_signal env :
  has_provider env = true ->
  exists e, In e PRIMARY_MODEL_PRIORITY /\ env_true (resolved_env env) (fst e) = true.
Proof.
  destruct credential_vars_are_signals as [Hb [Hc Ha]].
  rewrite forallb_forall in Hb, Hc.
  unfold has_provider. intros H.
  rewrite !orb_true_iff in H. destruct H as [[[[H|H]|H]|H]|H].
  - apply existsb_exists in H as [b [Hin Ht]].
    apply (is_signal_resolved env (fst (fst b))); [exact (Hb b Hin)|exact Ht].
  - exists ("_OPENCODE_KEY", "opencode/claude-opus-4-5"). split; [simpl; auto 10|].
    rewrite env_true_resolved. exact H.
  - apply andb_true_iff in H as [H _].
    apply (is_signal_resolved env "AWS_ACCESS_KEY_ID"); [exact Ha|exact H].
  - exists ("_OLLAMA_URL", "ollama/llama3.3"). split; [simpl; auto 30|].
    rewrite env_true_resolved. exact H.
  - apply existsb_exists in H as [p [Hin Ht]].
    apply (is_signal_resolved env (p_env p)); [exact (Hc p Hin)|exact Ht].
Qed.

Lemma priority_models_nonempty :
  forallb nonempty (map snd PRIMARY_MODEL_PRIORITY) = true.
Proof. vm_compute. reflexivity. Qed.

(** Whenever the environment holds what the validator of section 14
    accepts, section 8 returns with a primary model that is not empty:
    the one named by [OPENCLAW_PRIMARY_MODEL], else the one of the files,
    else the model of a signal of the priority table.  So no document
    that passes the validator was without a primary model after section
    8. *)
Theorem credential_gives_primary_model env custom persisted loaded hc c7 :
  load_config custom persisted = Ok (loaded, hc) ->
  provider_sections env custom persisted = Ok c7 ->
  has_provider env = true ->
  exists c8, primary_model_selection env c7 = Ok c8 /\
             truthy (primary_of c8) = true.
Proof.
  intros Hl H Hp.
  destruct (provider_sections_model _ _ _ _ _ _ Hl H) as [[m Hm] _].
  destruct (primary_model_selection_spec env c7 m Hm) as [c8 [H8 Hv]].
  exists c8. split; [exact H8|]. rewrite Hv.
  destruct (env_true env "OPENCLAW_PRIMARY_MODEL") eqn:Eo; [exact Eo|].
  destruct (truthy (primary_of c7)) eqn:Et; [exact Et|].
  destruct (has_provider_signal env Hp) as [e [Hin He]].
  destruct (first_signal_some _ _ _ Hin He) as [model [-> Hmodel]].
  pose proof priority_models_nonempty as Hn. rewrite forallb_forall in Hn.
  exact (Hn model Hmodel).
Qed.

Lemma credential_gives_primary_model_witness :
  exists c8,
    primary_model_selection [("OPENCODE_ZEN_API_KEY", "zen")]
      (JDict [("gateway",
               JDict [("port", JInt 18789); ("mode", JStr "local");
                      ("controlUi", JDict [("allowInsecureAuth", JBool true);
                                           ("enabled", JBool true)])]);
              ("agents",
               JDict [("defaults",
                       JDict [("workspace", JStr "/data/workspace");
                              ("model", JDict [])])])]) = Ok c8 /\
    truthy (primary_of c8) = true.
Proof.
  apply (credential_gives_primary_model
           [("OPENCODE_ZEN_API_KEY", "zen")] None None (JDict []) false).
  - reflexivity.
  - vm_compute. reflexivity.
  - reflexivity.
Defined.

(** ** [remove_provider] *)

(** [remove_provider] never raises, whatever the document: with a bundled
    file it changes nothing; without one the entry of the provider is
    absent afterwards; and in both cases everything beside that entry is
    as before. *)
Theorem remove_provider_outcome cfg hc name :
  exists cfg',
    remove_provider cfg hc name = Ok cfg' /\
    (hc = true -> cfg' = cfg) /\
    (hc = false -> get_path cfg' ["models"; "providers"; name] = None) /\
    (forall p, diverge p ["models"; "providers"; name] = true ->
               get_path cfg' p = get_path cfg p).
Proof.
  unfold remove_provider. destruct hc; simpl.
  - exists cfg. repeat split; auto. discriminate.
  - destruct (del_provider_returns cfg name) as [cfg' H].
    exists cfg'. split; [exact H|]. split; [discriminate|]. split.
    + intros _. eapply del_provider_get; eauto.
    + intros p Hd. eapply del_provider_frame; eauto.
Qed.

(** ** Section 10: the clean-up of [channels] *)

(** Section 10 never leaves an empty [channels] mapping behind: after it
    the document has channels in the mapping, something that is no
    mapping, or no [channels] key at all. *)
Theorem channels_never_left_empty env cfg cfg' :
  channels env cfg = Ok cfg' ->
  get_path cfg' ["channels"] <> Some (JDict []).
Proof.
  unfold channels. intros H.
  apply bind_inv in H as [c [_ H]]. apply bind_inv in H as [chs [Hc H]].
  destruct c; try discriminate. simpl in Hc.
  assert (Hnode : get_path (JDict d) ["channels"] <> Some (JDict []) \/
                  chs = JDict []).
  { simpl. destruct (dict_get d "channels") as [v|]; injection Hc as <-.
    - destruct v as [ | | | | | |[|x l]]; auto; left; discriminate.
    - left. discriminate. }
  destruct Hnode as [Hnode| ->].
  - destruct chs as [ | | | | | |[|x l]]; try (injection H as <-; exact Hnode).
    rewrite (delitem_get _ _ _ [] H). discriminate.
  - rewrite (delitem_get _ _ _ [] H). discriminate.
Qed.

Lemma channels_never_left_empty_witness :
  channels [("WHATSAPP_ENABLED", "no")]
           (JDict [("gateway", JDict []); ("channels", JDict [])])
    = Ok (JDict [("gateway", JDict [])]) /\
  get_path (JDict [("gateway", JDict [])]) ["channels"] <> Some (JDict []).
Proof.
  split; [reflexivity|].
  apply (channels_never_left_empty
           [("WHATSAPP_ENABLED", "no")]
           (JDict [("gateway", JDict []); ("channels", JDict [])])).
  reflexivity.
Defined.

(** ** The document a run writes, and the files beside it *)

Lemma update_at_top cfg k q f cfg' :
  update_at cfg (k :: q) f = Ok cfg' -> isinstance_dict cfg' = true.
Proof.
  simpl. intros H. apply bind_inv in H as [child [_ H]].
  apply bind_inv in H as [child' [_ H]].
  apply setitem_inv in H as [d [_ ->]]. reflexivity.
Qed.

Lemma delitem_top obj k obj' : delitem obj k = Ok obj' -> isinstance_dict obj' = true.
Proof.
  destruct obj; simpl; try discriminate.
  destruct (dict_mem d k); try discriminate. now intros [= <-].
Qed.

Lemma set_nested_top obj dotpath v obj' :
  set_nested obj dotpath v = Ok obj' -> isinstance_dict obj' = true.
Proof.
  unfold set_nested. destruct (split "." dotpath); try discriminate.
  apply set_keys_dict.
Qed.

(** The last step of a section gives a mapping, or the section returned
    the document it was given. *)
Ltac mapping_result :=
  first
    [ assumption
    | match goal with
      | H : ensure _ (_ :: _) = Ok ?c |- isinstance_dict ?c = true =>
          apply ensure_top in H; [exact H|discriminate]
      | H : assign _ (_ :: _) _ _ = Ok ?c |- isinstance_dict ?c = true =>
          unfold assign in H; exact (update_at_top _ _ _ _ _ H)
      | H : update_at _ (_ :: _) _ = Ok ?c |- isinstance_dict ?c = true =>
          exact (update_at_top _ _ _ _ _ H)
      | H : delitem _ _ = Ok ?c |- isinstance_dict ?c = true =>
          exact (delitem_top _ _ _ H)
      end ].

Lemma primary_model_selection_top env cfg cfg' :
  primary_model_selection env cfg = Ok cfg' ->
  isinstance_dict cfg = true -> isinstance_dict cfg' = true.
Proof. unfold primary_model_selection. intros H Hd. run_inv; mapping_result. Qed.

Lemma deepgram_top env cfg cfg' :
  deepgram env cfg = Ok cfg' ->
  isinstance_dict cfg = true -> isinstance_dict cfg' = true.
Proof. unfold deepgram. intros H Hd. run_inv; mapping_result. Qed.

Lemma configure_channels_top env chs : forall cfg cfg',
  configure_channels env cfg chs = Ok cfg' ->
  isinstance_dict cfg = true -> isinstance_dict cfg' = true.
Proof.
  induction chs as [|ch rest IH]; intros cfg cfg' H Hd; simpl in H.
  - now injection H as <-.
  - apply bind_inv in H as [c [E H]]. apply (IH _ _ H).
    unfold configure_channel in E. destruct (gate_open env ch).
    + apply bind_inv in E as [c1 [_ E]]. exact (update_at_top _ _ _ _ _ E).
    + now injection E as <-.
Qed.

Lemma channels_top env cfg cfg' :
  channels env cfg = Ok cfg' ->
  isinstance_dict cfg = true -> isinstance_dict cfg' = true.
Proof.
  unfold channels. intros H Hd.
  apply bind_inv in H as [c [E H]]. apply bind_inv in H as [chs [_ H]].
  pose proof (configure_channels_top _ _ _ _ E Hd).
  run_inv; mapping_result.
Qed.

Lemma browser_tool_top env cfg cfg' :
  browser_tool env cfg = Ok cfg' ->
  isinstance_dict cfg = true -> isinstance_dict cfg' = true.
Proof.
  unfold browser_tool. intros H Hd.
  destruct (env_true env "BROWSER_CDP_URL"); [|now injection H as <-].
  apply bind_inv in H as [c [_ H]]. exact (update_at_top _ _ _ _ _ H).
Qed.

Lemma hooks_top env cfg cfg' :
  hooks env cfg = Ok cfg' ->
  isinstance_dict cfg = true -> isinstance_dict cfg' = true.
Proof.
  unfold hooks. intros H Hd.
  destruct (is_true_or_1 (getenv env "HOOKS_ENABLED" "")); [|now injection H as <-].
  apply bind_inv in H as [c [_ H]]. apply bind_inv in H as [c1 [_ H]].
  exact (update_at_top _ _ _ _ _ H).
Qed.

Lemma filter_none {A} (f : A -> bool) l :
  (forall x, In x l -> f x = false) -> filter f l = [].
Proof.
  induction l as [|x l IH]; simpl; intros H; auto.
  rewrite (H x (or_introl eq_refl)). apply IH. intros y Hy. apply H. now right.
Qed.

Section Runs.

Variable py_float : string -> option float.
Variable json_loads : string -> option json.
Variable py_repr : json -> string.

Local Abbreviation convention_loop' := (convention_loop py_float json_loads).
Local Abbreviation overrides := (apply_convention_overrides py_float json_loads).
Local Abbreviation features := (feature_sections py_float json_loads).
Local Abbreviation build := (build_config py_float json_loads).
Local Abbreviation run_main := (main py_float json_loads py_repr).

Lemma convention_loop_filter items : forall cfg,
  convention_loop' cfg items =
  convention_loop' cfg (filter (fun item => startswith (fst item) prefix) items).
Proof.
  induction items as [|[key raw] rest IH]; intros cfg; simpl; auto.
  destruct (startswith key prefix) eqn:E; simpl; auto.
  rewrite E. simpl. destruct (set_nested cfg _ _); simpl; auto.
Qed.

(** Only the variables whose name starts with [OPENCLAW_JSON__] play a
    part in the convention overrides: the result is that of the loop over
    those variables alone, and an environment without any leaves the
    document as it is. *)
Theorem overrides_read_prefixed_variables_only env cfg :
  overrides env cfg =
    convention_loop' cfg
      (filter (fun item => startswith (fst item) prefix) (sorted env)) /\
  ((forall key raw, In (key, raw) env -> startswith key prefix = false) ->
   overrides env cfg = Ok cfg).
Proof.
  unfold apply_convention_overrides. split.
  - apply convention_loop_filter.
  - intros Hn. rewrite convention_loop_filter.
    rewrite filter_none; [reflexivity|].
    intros [key raw] Hin. exact (Hn key raw (proj1 (sorted_In _ _) Hin)).
Qed.

Lemma convention_loop_top items : forall cfg cfg',
  convention_loop' cfg items = Ok cfg' ->
  isinstance_dict cfg = true -> isinstance_dict cfg' = true.
Proof.
  induction items as [|[key raw] rest IH]; intros cfg cfg' H Hd; simpl in H.
  - now injection H as <-.
  - destruct (startswith key prefix); simpl in H; eauto.
    apply bind_inv in H as [c [E H]]. apply (IH _ _ H).
    eapply set_nested_top; eauto.
Qed.

Lemma features_top env cfg cfg' :
  features env cfg = Ok cfg' ->
  isinstance_dict cfg = true -> isinstance_dict cfg' = true.
Proof.
  unfold feature_sections, apply_convention_overrides. intros H Hd.
  apply bind_inv in H as [c1 [E1 H]]. apply bind_inv in H as [c2 [E2 H]].
  apply bind_inv in H as [c3 [E3 H]]. apply bind_inv in H as [c4 [E4 H]].
  eapply convention_loop_top; eauto.
  eapply hooks_top; eauto. eapply browser_tool_top; eauto.
  eapply channels_top; eauto. eapply deepgram_top; eauto.
Qed.

Lemma build_top env custom persisted final :
  build env custom persisted = Ok final -> isinstance_dict final = true.
Proof.
  intros H. destruct (build_inv _ _ _ _ _ _ H) as [_ [c7 [c8 [H7 [H8 Hf]]]]].
  eapply features_top; eauto. eapply primary_model_selection_top; eauto.
  unfold provider_sections in H7.
  apply bind_inv in H7 as [[loaded hc] [Hl H7]].
  destruct (provider_sections_model env custom persisted loaded hc c7 Hl)
    as [[m Hm] _].
  { unfold provider_sections. rewrite Hl. exact H7. }
  apply (mapping_at_top c7 ["agents"; "defaults"; "model"]). now exists m.
Qed.

(** A run that gets past the validator writes a document that is a
    mapping, and writes the auth snippet.  The hooks snippet then depends
    on the [hooks] node of that document alone: with no such node or a
    mapping there the run returns, and the snippet is empty exactly when
    [hooks.enabled] is missing or falsy; with anything else there (a
    string, a number, a list, true, null) the run ends with
    [AttributeError] after the document and the auth snippet are written
    and before the hooks snippet is. *)
Theorem run_files_after_validation hash_password env custom persisted cfg :
  build env custom persisted = Ok cfg ->
  let r := run_main hash_password env custom persisted in
  isinstance_dict cfg = true /\
  openclaw_json r = Some cfg /\
  auth_caddyfile r = Some (auth_snippet hash_password env) /\
  match get_path cfg ["hooks"] with
  | Some (JDict _) | None =>
      raised r = None /\
      exists content,
        hooks_caddyfile r = Some content /\
        (content = "" <-> truthy (node_or_none cfg ["hooks"; "enabled"]) = false)
  | Some _ => raised r = Some AttributeError /\ hooks_caddyfile r = None
  end.
Proof.
  intros H r. pose proof (build_top _ _ _ _ H) as Hd.
  subst r. unfold main. rewrite H.
  destruct cfg as [ | | | | | |d]; try discriminate.
  split; [reflexivity|].
  unfold hooks_snippet, node_or_none. simpl.
  destruct (dict_get d "hooks") as [h|] eqn:Eh; simpl.
  - destruct h as [ | | | | | |hd]; simpl; auto.
    destruct (dict_get hd "enabled") as [v|]; simpl.
    + destruct (truthy v); simpl; repeat split; auto; eexists;
        (split; [reflexivity|]); split; auto; discriminate.
    + repeat split; auto. eexists. split; [reflexivity|]. split; auto.
  - repeat split; auto. eexists. split; [reflexivity|]. split; auto.
Qed.

End Runs.

Lemma overrides_read_prefixed_variables_only_witness :
  apply_convention_overrides float_rejects loads_rejects
    [("OPENCLAW_JSON", "1"); ("OPENCLAW_GATEWAY_PORT", "80")]
    (JDict [("gateway", JDict [])])
  = Ok (JDict [("gateway", JDict [])]).
Proof.
  apply (proj2 (overrides_read_prefixed_variables_only float_rejects loads_rejects
                  [("OPENCLAW_JSON", "1"); ("OPENCLAW_GATEWAY_PORT", "80")]
                  (JDict [("gateway", JDict [])]))).
  intros key raw [E|[E|[]]]; injection E as <- <-; reflexivity.
Defined.

Lemma run_files_after_validation_witness :
  exists cfg,
    build_config float_rejects loads_rejects [("ANTHROPIC_API_KEY", "sk")]
                 None (Some (JDict [("hooks", JStr "on")])) = Ok cfg /\
    openclaw_json (run_example [("ANTHROPIC_API_KEY", "sk")]
                               None (Some (JDict [("hooks", JStr "on")]))) = Some cfg /\
    raised (run_example [("ANTHROPIC_API_KEY", "sk")]
                        None (Some (JDict [("hooks", JStr "on")]))) = Some AttributeError /\
    hooks_caddyfile (run_example [("ANTHROPIC_API_KEY", "sk")]
                                 None (Some (JDict [("hooks", JStr "on")]))) = None.
Proof.
  eexists.
  match goal with |- ?b = Ok ?c /\ _ =>
    assert (Hb : b = Ok c) by (vm_compute; reflexivity)
  end.
  destruct (run_files_after_validation float_rejects loads_rejects repr_unused
              (hash_returns "$2a$14$hash") _ _ _ _ Hb) as [_ [Hj [_ Hh]]].
  split; [exact Hb|]. split; [exact Hj|]. exact Hh.
Defined.

(** ** [deep_merge]: what it returns and when it raises *)

Lemma merge_items_keys : forall (s t : dict json),
  exists r, merge_items s (JDict t) = Ok (JDict r) /\
            forall k, In k (keys r) <-> In k (keys t) \/ In k (keys s).
Proof.
  induction s as [|[key val] rest IH]; intros t.
  - exists t. split; [reflexivity|]. simpl. tauto.
  - destruct (merge_step t key val) as [x [Hstep _]].
    destruct (IH (dict_set t key x)) as [r [Hr Hk]].
    exists r. split.
    + change (merge_items ((key, val) :: rest) (JDict t))
        with (bind (match val with
                    | JDict _ =>
                        tv <- py_get (JDict t) key JNull ;;
                        match tv with
                        | JDict _ =>
                            merged <- deep_merge tv val ;;
                            setitem (JDict t) key merged
                        | _ => setitem (JDict t) key val
                        end
                    | _ => setitem (JDict t) key val
                    end) (merge_items rest)).
      rewrite Hstep. exact Hr.
    + intros k. rewrite Hk, keys_dict_set. simpl. intuition.
Qed.

(** Merging into a mapping: a source that is a mapping never makes
    [deep_merge] raise, and the keys of the result are those of the target
    and those of the source, so no key of the target is ever dropped; a
    source that is anything else raises [AttributeError]. *)
Theorem deep_merge_outcome (t : dict json) source :
  match source with
  | JDict s =>
      exists r, deep_merge (JDict t) source = Ok (JDict r) /\
                forall k, In k (keys r) <-> In k (keys t) \/ In k (keys s)
  | _ => deep_merge (JDict t) source = Raise AttributeError
  end.
Proof.
  destruct source; try reflexivity.
  rewrite deep_merge_items. apply merge_items_keys.
Qed.

(** ** Sections 9, 11 and 12 of [main]: the gated features *)


